(** * Motion cadence synchronisation engine of [src/frontend/app.js]

    A shallow embedding of the sensor part of the browser player:
    [handleAcceleration], [calculateSPM], [updateSongBpm] and
    [updateSyncDisplay], together with the globals they share
    ([normData], [intervalData], [spmHistory], [currentSongBpm]); then of
    the player page ([showLogin], [showApp], [apiGet], [apiSend],
    [checkSession], [transferPlayback], [playTrack]) and of the server's
    tokens and routes.

    JavaScript numbers are IEEE 754 binary64 values, so they are modelled by
    Rocq's primitive floats, whose operations round exactly as the engine's
    do.  Arrays are lists, oldest element first.  The DOM is a record with
    one field per element the code looks up. *)

From Stdlib Require Import String ZArith List Bool Lia Floats Uint63.
Import ListNotations.

(** ** JavaScript numbers *)

Module Js.

Local Open Scope float_scope.

(** An array length or a loop counter, as a number. *)
Definition of_nat (n : nat) : float :=
  PrimFloat.of_uint63 (Uint63.of_Z (Z.of_nat n)).

(** An integer as a number (used for integers below 2^53 only). *)
Definition of_Z (z : Z) : float :=
  if (z <? 0)%Z then - PrimFloat.of_uint63 (Uint63.of_Z (- z))
  else PrimFloat.of_uint63 (Uint63.of_Z z).

Definition is_nan (x : float) : bool := negb (x =? x).

(** [ToBoolean] on a number: [0], [-0] and [NaN] are falsy. *)
Definition truthy (x : float) : bool := negb (x =? 0) && negb (is_nan x).

(** [Math.abs]. *)
Definition Math_abs (x : float) : float := PrimFloat.abs x.

(** [Math.max] of two arguments: [NaN] if either is, and [+0] above [-0]. *)
Definition Math_max (a b : float) : float :=
  if is_nan a || is_nan b then nan
  else if a <? b then b
  else if b <? a then a
  else if get_sign a then b else a.

(** [Math.round]: the integer closest to [x], ties towards +infinity;
    [NaN], the infinities, the zeros and the integers are returned as they
    are, and a result of zero keeps the sign of [x].  A finite [x] is
    [(-1)^s * m * 2^e]; for [e < 0] the result is [floor (x + 1/2)]
    computed exactly on integers. *)
Definition Math_round (x : float) : float :=
  match Prim2SF x with
  | S754_finite s m e =>
      if (0 <=? e)%Z then x
      else
        let d := (2 ^ (- e))%Z in
        let num := if s then Z.neg m else Z.pos m in
        let n := ((2 * num + d) / (2 * d))%Z in
        if (n =? 0)%Z then (if s then neg_zero else zero) else of_Z n
  | _ => x
  end.

(** [Math.pow (x, 2)], taken as the correctly rounded square. *)
Definition Math_pow2 (x : float) : float := x * x.

(** [a || b] on numbers. *)
Definition or_else (a b : float) : float := if truthy a then a else b.

End Js.

(** ** The cadence estimator: [calculateSPM] *)

Module Cadence.

Import Js.
Local Open Scope float_scope.

(** [0.1], the variance below which a frame is stationary. *)
Definition VARIANCE_MIN : float := 0x1.999999999999ap-4.
(** [0.7], the multiplier of the standard deviation. *)
Definition STD_FACTOR : float := 0x1.6666666666666p-1.

(** [data.reduce((a, b) => a + b, 0)]. *)
Definition sum (data : list float) : float := fold_left PrimFloat.add data 0.

(** [const avg = data.reduce(...) / data.length]. *)
Definition average (data : list float) : float :=
  sum data / of_nat (length data).

(** [const variance =
      data.reduce((a, b) => a + Math.pow(b - avg, 2), 0) / data.length]. *)
Definition variance (data : list float) : float :=
  let avg := average data in
  fold_left (fun a b => a + Math_pow2 (b - avg)) data 0 / of_nat (length data).

(** [variance < 0.1]. *)
Definition stationary (data : list float) : bool :=
  variance data <? VARIANCE_MIN.

(** [const threshold = avg + (0.7 * stdDev)]. *)
Definition threshold (data : list float) : float :=
  average data + STD_FACTOR * PrimFloat.sqrt (variance data).

(** The body of the detection loop, run over the samples it is given:
    [if (d > threshold && !cross) { steps++; cross = true; }
     else if (d < threshold) { cross = false; }]. *)
Fixpoint walk (t : float) (samples : list float) (steps : nat) (cross : bool)
  : nat :=
  match samples with
  | [] => steps
  | d :: rest =>
      if (t <? d) && negb cross then walk t rest (S steps) true
      else if d <? t then walk t rest steps false
      else walk t rest steps cross
  end.

(** [for (let i = 1; i < data.length; i++)]: the loop starts at index 1,
    so it runs over the tail of the frame, from [steps = 0] and
    [cross = false]. *)
Definition countSteps (data : list float) : nat :=
  walk (threshold data) (tl data) 0 false.

(** [Math.round((steps / (durationMs / 1000)) * 60)]. *)
Definition rawSpm (steps : nat) (durationMs : float) : float :=
  Math_round (of_nat steps / (durationMs / 1000) * 60).

(** [spmHistory.reduce((a, b) => a + b)]: no initial value, the first
    element starts the sum.  The history is non-empty where this is used;
    on an empty array the call throws, which [None] stands for. *)
Definition reduce_add (h : list float) : option float :=
  match h with
  | [] => None
  | x :: rest => Some (fold_left PrimFloat.add rest x)
  end.

(** [spmHistory.push(rawSpm); if (spmHistory.length > 3) spmHistory.shift();]. *)
Definition push_shift (history : list float) (raw : float) : list float :=
  let pushed := history ++ [raw] in
  if (3 <? length pushed)%nat then tl pushed else pushed.

(** [Math.round(spmHistory.reduce((a, b) => a + b) / spmHistory.length)]. *)
Definition smoothed (history : list float) : float :=
  match reduce_add history with
  | Some total => Math_round (total / of_nat (length history))
  | None => nan
  end.

(** [calculateSPM(data, durationMs)], with the global [spmHistory] passed
    in and returned. *)
Definition calculateSPM (data : list float) (durationMs : float)
    (spmHistory : list float) : float * list float :=
  if stationary data then (0, spmHistory)
  else
    let history' := push_shift spmHistory (rawSpm (countSteps data) durationMs) in
    (smoothed history', history').

End Cadence.

(** ** Parsed JSON, as the code reads it *)

Module Json.

Local Unset Elimination Schemes.

(** A value produced by [JSON.parse] or [response.json()]. *)
Inductive t : Type :=
| JNull
| JBool (b : bool)
| JNum (f : float)
| JStr (s : string)
| JArr (items : list t)
| JObj (members : list (string * t)).

Local Set Elimination Schemes.

(** The member of an object with the given key; [None] is [undefined]. *)
Fixpoint member (key : string) (members : list (string * t)) : option t :=
  match members with
  | [] => None
  | (k, v) :: rest => if String.eqb k key then Some v else member key rest
  end.

(** [v.key] for a key that no built-in prototype defines: a [TypeError] on
    [null] ([inr]), the member on an object, [undefined] on anything else. *)
Definition get (v : t) (key : string) : option t + unit :=
  match v with
  | JNull => inr tt
  | JObj members => inl (member key members)
  | _ => inl None
  end.

(** [ToBoolean] on a value that may be [undefined]. *)
Definition truthy (v : option t) : bool :=
  match v with
  | None => false
  | Some JNull => false
  | Some (JBool b) => b
  | Some (JNum f) => Js.truthy f
  | Some (JStr s) => negb (String.eqb s "")
  | Some (JArr _) => true
  | Some (JObj _) => true
  end.

(** Whether [ToString] completes on a value.  It throws a [TypeError] on an
    object that has a member named [toString]: the member, which is not a
    function, shadows the built-in method, and the built-in [valueOf]
    returns the object itself.  It throws on an array when it throws on one
    of its elements, which [join] converts in turn. *)
Fixpoint prints (v : t) : bool :=
  match v with
  | JArr items => forallb prints items
  | JObj members =>
      negb (existsb (fun kv : string * t => String.eqb (fst kv) "toString")
              members)
  | _ => true
  end.

(** The same on a value that may be [undefined], which prints. *)
Definition printable (v : option t) : bool :=
  match v with
  | Some j => prints j
  | None => true
  end.

(** [ToBoolean] on a string that may be [null] or [undefined]. *)
Definition truthy_string (s : option string) : bool :=
  match s with
  | Some s => negb (String.eqb s "")
  | None => false
  end.

(** What a variable holds once a member of a parsed body is assigned to it
    and the code goes on using it as a number or as a text.  A string comes
    with the number [ToNumber] makes of its text, and an array with the
    number [ToNumber] makes of its elements joined by commas; these numbers
    are not computed here: what is proved holds whatever they are.  An
    array or an object is one whose conversion to a primitive completes.
    The conversion throws for an object that has a member named [toString]
    and for an array that reaches one: these are left out. *)
Inductive held : Type :=
| Num (f : float)
| Null
| Truth (b : bool)
| Text (s : string) (parsed : float)
| Arr (parsed : float)
| Obj.

(** [ToNumber]: [null] is 0, [true] is 1, an object is [NaN]. *)
Definition to_number (v : held) : float :=
  match v with
  | Num f => f
  | Null => 0%float
  | Truth b => if b then 1%float else 0%float
  | Text _ parsed => parsed
  | Arr parsed => parsed
  | Obj => nan
  end.

(** [ToBoolean] on a held value. *)
Definition held_truthy (v : held) : bool :=
  match v with
  | Num f => Js.truthy f
  | Null => false
  | Truth b => b
  | Text s _ => negb (String.eqb s "")
  | Arr _ => true
  | Obj => true
  end.

(** [response.ok]: the status is in the range 200 to 299. *)
Definition ok (status : nat) : bool :=
  (200 <=? status)%nat && (status <=? 299)%nat.

End Json.

(** ** The page and the shared state *)

(** What an element shows: the markup the page was served with, a number
    assigned to [innerText], a number followed by ["%"], or the value of
    [currentSongBpm] assigned to [innerText]. *)
Inductive inner : Type :=
| Markup (s : string)
| Number (f : float)
| Percent (f : float)
| Shown (v : Json.held).

(** The elements the sensor code looks up with [getElementById]; [None] is an
    element the page does not have.  [sync_circle] holds its
    [style.borderColor]. *)
Record Page : Type := mkPage {
  current_spm : option inner;
  sync_rate : option inner;
  sync_circle : option string;
  bpm_val : option inner
}.

(** [if (el) el.innerText = v]: writes only to an element that exists. *)
Definition assign {A : Type} (el : option A) (v : A) : option A :=
  match el with
  | Some _ => Some v
  | None => None
  end.

(** The globals of [app.js] that the sensor code uses, the page, and what
    [console.error] has been given so far. *)
Record World : Type := mkWorld {
  normData : list float;
  intervalData : list float;
  spmHistory : list float;
  currentSongBpm : Json.held;
  page : Page;
  console : list string
}.

(** The state the script starts in: [let normData = []; let intervalData = [];
    let spmHistory = []; let currentSongBpm = 0;]. *)
Definition initial (p : Page) : World :=
  mkWorld [] [] [] (Json.Num 0) p [].

Definition NUM_DATA_PER_FRAME : nat := 200.

(** ** The synchronisation display: [updateSyncDisplay] *)

Module Sync.

Import Js.
Local Open Scope float_scope.

(** [const diff = Math.abs(spm - currentSongBpm);
     const syncRate = Math.max(0, 100 - diff);]. *)
Definition syncRate (spm bpm : float) : float :=
  Math_max 0 (100 - Math_abs (spm - bpm)).

(** [syncRate > 90 ? "#1DB954" : "#333"]. *)
Definition borderColor (rate : float) : string :=
  if 90 <? rate then "#1DB954"%string else "#333"%string.

(** [updateSyncDisplay(spm)], reading the global [currentSongBpm]; the
    comparison and the subtraction take it as a number. *)
Definition updateSyncDisplay (spm : float) (w : World) : World :=
  let p := page w in
  let p1 := mkPage (assign (current_spm p) (Number spm))
                   (sync_rate p) (sync_circle p) (bpm_val p) in
  let p2 :=
    if (0 <? spm) && (0 <? Json.to_number (currentSongBpm w)) then
      let rate := syncRate spm (Json.to_number (currentSongBpm w)) in
      mkPage (current_spm p1)
             (assign (sync_rate p1) (Percent (Math_round rate)))
             (assign (sync_circle p1) (borderColor rate))
             (bpm_val p1)
    else p1 in
  mkWorld (normData w) (intervalData w) (spmHistory w) (currentSongBpm w)
          p2 (console w).

End Sync.

(** ** The tempo poll: [updateSongBpm] *)

Module Tempo.

Import Js.

(** The parsed body [data]: [null], on which [data.bpm] throws, or a value
    whose [bpm] property is missing ([undefined], [None]) or is a value of
    the document, number or not: the code tests it for truthiness only. *)
Inductive Body : Type :=
| BodyNull
| BodyObject (bpm : option Json.held).

(** How one poll goes: [fetch] rejects (network error), [res.json()]
    rejects (the payload is not JSON), or a body is parsed. *)
Inductive Response : Type :=
| FetchRejected (e : string)
| JsonRejected (e : string)
| Json (data : Body).

(** How the promise returned by the async function settles. *)
Inductive Settled : Type :=
| Fulfilled
| Rejected (e : string).

(** What the [try] block does: [inr e] is an exception [e] reaching the
    [catch], [inl w'] is normal completion. *)
Definition try_block (r : Response) (w : World) : World + string :=
  match r with
  | FetchRejected e => inr e
  | JsonRejected e => inr e
  | Json BodyNull => inr "TypeError"%string
  | Json (BodyObject None) => inl w
  | Json (BodyObject (Some bpm)) =>
      if Json.held_truthy bpm then
        let p := page w in
        inl (mkWorld (normData w) (intervalData w) (spmHistory w) bpm
               (mkPage (current_spm p) (sync_rate p) (sync_circle p)
                       (assign (bpm_val p) (Shown bpm)))
               (console w))
      else inl w
  end.

(** [updateSongBpm()]: [try { ... } catch (e) { console.error(e); }]. *)
Definition updateSongBpm (r : Response) (w : World) : Settled * World :=
  match try_block r w with
  | inl w' => (Fulfilled, w')
  | inr e =>
      (Fulfilled,
       mkWorld (normData w) (intervalData w) (spmHistory w)
               (currentSongBpm w) (page w) (console w ++ [e]))
  end.

End Tempo.

(** ** The motion handler: [handleAcceleration] *)

Module Motion.

Import Js.
Local Open Scope float_scope.

(** [ev.acceleration]: [x] may be [null]; [y] and [z] are numbers. *)
Record Acceleration : Type := mkAcc {
  acc_x : option float;
  acc_y : float;
  acc_z : float
}.

(** A [devicemotion] event; a missing [interval] is [None]. *)
Record MotionEvent : Type := mkEvent {
  acceleration : option Acceleration;
  interval : option float
}.

(** [ev.interval || 20]. *)
Definition interval_or_default (i : option float) : float :=
  match i with
  | Some v => or_else v 20
  | None => 20
  end.

(** [handleAcceleration(ev)]: an event without acceleration is dropped;
    otherwise the magnitude and the interval are buffered, and the 200th
    sample has the frame processed and the buffers emptied. *)
Definition handleAcceleration (ev : MotionEvent) (w : World) : World :=
  match acceleration ev with
  | None => w
  | Some acc =>
      match acc_x acc with
      | None => w
      | Some x =>
          let norm :=
            PrimFloat.sqrt
              (Math_pow2 x + Math_pow2 (acc_y acc) + Math_pow2 (acc_z acc)) in
          let nd := normData w ++ [norm] in
          let id := intervalData w ++ [interval_or_default (interval ev)] in
          if (NUM_DATA_PER_FRAME <=? length nd)%nat then
            let totalDurationMs := Cadence.sum id in
            let (spm, h) := Cadence.calculateSPM nd totalDurationMs (spmHistory w) in
            let w1 := Sync.updateSyncDisplay spm
                        (mkWorld nd id h (currentSongBpm w) (page w) (console w)) in
            mkWorld [] [] (spmHistory w1) (currentSongBpm w1) (page w1) (console w1)
          else
            mkWorld nd id (spmHistory w) (currentSongBpm w) (page w) (console w)
      end
  end.

End Motion.

(** ** The event loop

    Motion events and tempo polls are handled one at a time, each to
    completion; a session is a sequence of them. *)

Inductive Tick : Type :=
| MotionTick (ev : Motion.MotionEvent)
| PollTick (r : Tempo.Response).

Definition step (w : World) (t : Tick) : World :=
  match t with
  | MotionTick ev => Motion.handleAcceleration ev w
  | PollTick r => snd (Tempo.updateSongBpm r w)
  end.

Definition session (ticks : list Tick) (p : Page) : World :=
  fold_left step ticks (initial p).

(** ** What the specification describes, and the notions used to state it *)

Module Described.

Import Js Cadence.
Local Open Scope float_scope.

(** The crossing count as the specification words it: the flag machine of
    the loop body walked over all the samples of the frame, the first one
    included. *)
Definition wholeFrameCount (data : list float) : nat :=
  walk (threshold data) data 0 false.

(** The number of transitions from a sample at or below [t] to a sample
    above [t]. *)
Fixpoint transitions (t : float) (samples : list float) : nat :=
  match samples with
  | [] => 0
  | a :: rest =>
      match rest with
      | [] => 0
      | b :: _ =>
          (if (a <=? t) && (t <? b) then 1 else 0) + transitions t rest
      end
  end.

(** A sample strictly on one side of the threshold. *)
Definition off_threshold (t d : float) : bool := (d <? t) || (t <? d).

(** A number that is neither [NaN] nor an infinity. *)
Definition finite (x : float) : bool :=
  match Prim2SF x with
  | S754_zero _ | S754_finite _ _ _ => true
  | _ => false
  end.

(** The synchronisation score on integers: [max(0, 100 - |cadence - tempo|)]. *)
Definition score (cadence tempo : Z) : Z :=
  Z.max 0 (100 - Z.abs (cadence - tempo)).

(** The integers from 1 to [n]. *)
Definition upto (n : nat) : list Z := map Z.of_nat (seq 1 n).


(** What a failed poll hands to [console.error], if anything. *)
Definition logged (r : Tempo.Response) : list string :=
  match r with
  | Tempo.FetchRejected e | Tempo.JsonRejected e => [e]
  | Tempo.Json Tempo.BodyNull => ["TypeError"%string]
  | Tempo.Json (Tempo.BodyObject _) => []
  end.

End Described.

(** ** Frames used as concrete inputs *)

Module Frames.

Local Open Scope float_scope.

(** One sample of 20 followed by 199 samples of 0: only the first sample
    is above the threshold. *)
Definition spike_first : list float := 20 :: repeat 0 199.

(** 199 samples of 10 followed by one sample of 0: the variance is 0.4975
    and no sample is above the threshold. *)
Definition dip_last : list float := repeat 10 199 ++ [0].

(** [k] pulses [0, 20], then zeros up to 200 samples. *)
Fixpoint pulses (k : nat) : list float :=
  match k with
  | O => []
  | S k' => 0 :: 20 :: pulses k'
  end.

Definition pulse_frame (k : nat) : list float :=
  pulses k ++ repeat 0 (200 - 2 * k).

(** 73 samples of 0, 121 of 10 and 6 of 15, in an order where the samples
    of 15 are separated by samples of 10: the mean is 6.5, the variance 25
    and the threshold exactly 10. *)
Definition plateau : list float :=
  0 :: [15; 10; 15; 10; 15; 10; 15; 10; 15; 10; 15; 10]
    ++ repeat 10 115 ++ repeat 0 72.

(** 200 samples of 9.75. *)
Definition at_rest : list float := repeat 9.75 200.

(** 200 samples of 79878199125732.5, a number binary64 holds exactly. *)
Definition huge_constant : list float := repeat 79878199125732.5 200.

(** A motion event with the given acceleration along x and interval. *)
Definition shake (x i : float) : Motion.MotionEvent :=
  Motion.mkEvent (Some (Motion.mkAcc (Some x) 0 0)) (Some i).

(** A page that has all four elements. *)
Definition full_page : Page :=
  mkPage (Some (Markup "--")) (Some (Markup "--")) (Some "#333"%string)
         (Some (Markup "--")).

(** 200 motion events, 20 ms apart, whose accelerations along x follow
    [pulse_frame 25]: 25 steps in 4 seconds. *)
Definition shaking : list Tick :=
  map (fun x => MotionTick (shake x 20)) (pulse_frame 25).

(** The state after a first poll has stored a tempo of 120. *)
Definition tempo_120 : World :=
  snd (Tempo.updateSongBpm
         (Tempo.Json (Tempo.BodyObject (Some (Json.Num 120))))
         (initial full_page)).

End Frames.

(** ** Notions about sessions and samples *)

Module Stream.

Local Open Scope float_scope.

(** An event the handler buffers: it has an acceleration whose [x] is not
    [null]. *)
Definition usable (ev : Motion.MotionEvent) : bool :=
  match Motion.acceleration ev with
  | Some acc =>
      match Motion.acc_x acc with
      | Some _ => true
      | None => false
      end
  | None => false
  end.

Definition is_motion (t : Tick) : bool :=
  match t with
  | MotionTick _ => true
  | PollTick _ => false
  end.

Definition is_poll (t : Tick) : bool := negb (is_motion t).

(** The number of events of a session that the handler buffers. *)
Definition samples (ticks : list Tick) : nat :=
  length (filter (fun t => match t with
                           | MotionTick ev => usable ev
                           | PollTick _ => false
                           end) ticks).

(** The numbers of samples strictly above and strictly below [t]. *)
Definition above (t : float) (l : list float) : nat :=
  length (filter (fun d => t <? d) l).

Definition below (t : float) (l : list float) : nat :=
  length (filter (fun d => d <? t) l).

(** The last [n] entries of a list. *)
Definition lastn {A : Type} (n : nat) (l : list A) : list A :=
  skipn (length l - n) l.

(** Whether the page has an element. *)
Definition present {A : Type} (el : option A) : bool :=
  match el with
  | Some _ => true
  | None => false
  end.

(** The tempo a poll stores, if it stores one: the [bpm] of a parsed body,
    when it is truthy. *)
Definition stored (r : Tempo.Response) : option Json.held :=
  match r with
  | Tempo.Json (Tempo.BodyObject (Some bpm)) =>
      if Json.held_truthy bpm then Some bpm else None
  | _ => None
  end.

(** A tick whose payload, if it has a [bpm], has a number there. *)
Definition numeric_bpm (t : Tick) : bool :=
  match t with
  | PollTick (Tempo.Json (Tempo.BodyObject (Some (Json.Num _)))) => true
  | PollTick (Tempo.Json (Tempo.BodyObject (Some _))) => false
  | _ => true
  end.

(** The tempo stored by the most recent poll of a session that stored one;
    [start] if none did. *)
Definition last_stored (start : Json.held) (ticks : list Tick) : Json.held :=
  fold_left (fun cur t =>
               match t with
               | PollTick r =>
                   match stored r with
                   | Some bpm => bpm
                   | None => cur
                   end
               | MotionTick _ => cur
               end) ticks start.

(** The magnitude the handler buffers for an event:
    [Math.sqrt(acc.x ** 2 + acc.y ** 2 + acc.z ** 2)]. *)
Definition magnitude (ev : Motion.MotionEvent) : float :=
  match Motion.acceleration ev with
  | Some acc =>
      match Motion.acc_x acc with
      | Some x =>
          PrimFloat.sqrt (Js.Math_pow2 x + Js.Math_pow2 (Motion.acc_y acc)
                          + Js.Math_pow2 (Motion.acc_z acc))
      | None => nan
      end
  | None => nan
  end.

(** Two states that agree on what the motion handler owns: the buffers, the
    history and the cadence text. *)
Definition same_cadence (a b : World) : Prop :=
  normData a = normData b
  /\ intervalData a = intervalData b
  /\ spmHistory a = spmHistory b
  /\ current_spm (page a) = current_spm (page b).

(** Two states that agree on what the tempo poll owns: the stored tempo,
    the tempo text and the console. *)
Definition same_tempo (a b : World) : Prop :=
  currentSongBpm a = currentSongBpm b
  /\ bpm_val (page a) = bpm_val (page b)
  /\ console a = console b.

(** Two pages with the same elements, whatever they show. *)
Definition same_elements (p q : Page) : Prop :=
  present (current_spm p) = present (current_spm q)
  /\ present (sync_rate p) = present (sync_rate q)
  /\ present (sync_circle p) = present (sync_circle q)
  /\ present (bpm_val p) = present (bpm_val q).




End Stream.

(** ** The server: tokens and routes

    The Express server keeps four globals.  Each route is modelled as run
    alone from its first line to its reply: it is given what the outside
    world answers ([Env]) and returns its reply, the new globals, the
    requests it sent out and what it logged.  The route [/api/search] is
    left out. *)

Module Server.

Local Open Scope float_scope.

(** [CLIENT_ID], [CLIENT_SECRET] (missing when not in the environment) and
    [REDIRECT_URI]. *)
Record Config : Type := mkConfig {
  CLIENT_ID : option string;
  CLIENT_SECRET : option string;
  REDIRECT_URI : string
}.

(** [let accessToken = null; let refreshToken = null;
     let accessTokenExpiresAt = 0; let oauthState = null;]. *)
Record State : Type := mkState {
  accessToken : option string;
  refreshToken : option string;
  accessTokenExpiresAt : float;
  oauthState : option string
}.

Definition boot : State := mkState None None 0 None.

(** The members the code reads of the object the token endpoint returns;
    a missing member is [None]. *)
Record TokenData : Type := mkTokenData {
  access_token : option string;
  refresh_token : option string;
  expires_in : option float
}.

(** What the token endpoint answers: the request fails or the text of the
    response cannot be read ([fetch] or [response.text()] rejects), or a
    response with its [ok] flag and what [JSON.parse] makes of its text
    ([None]: it throws; [Some None]: the text is [null]). *)
Inductive TokenAnswer : Type :=
| TokenUnreachable
| TokenResponse (ok : bool) (parsed : option (option TokenData)).

(** What the Web API answers to [spotifyFetch]: the request fails or the
    text of the response cannot be read ([fetch] or [response.text()]
    rejects, before the status is looked at), or a response with its
    status, its text, and what [JSON.parse] makes of it ([None]: it
    throws). *)
Inductive ApiAnswer : Type :=
| ApiUnreachable
| ApiResponse (status : nat) (text : string) (parsed : option Json.t).

(** What [spotifyFetch] returns: [null], the parsed body, or the text. *)
Inductive ApiValue : Type :=
| VNull
| VParsed (j : Json.t)
| VText (s : string).

(** What one request meets: [Date.now()] when the route starts and when the
    token endpoint has answered, the bytes [crypto.randomBytes] draws, in
    hexadecimal, and the answers of the token endpoint and of the Web API. *)
Record Env : Type := mkEnv {
  now : float;
  later : float;
  nonce : string;
  token_answer : TokenAnswer;
  api_answer : ApiAnswer
}.

(** The requests a route sends out. *)
Inductive Call : Type :=
| CallRefresh (refresh_token : option string)
| CallExchange (code : string)
| CallMe (token : option string)
| CallTransfer (token : option string) (device_id : string)
| CallPlay (token : option string) (device_id : option string)
           (uris : list string).

Inductive Body : Type :=
| ErrorJson (code : string)
| OkJson
| TokenJson (access_token : option string) (expires_at : float)
| ValueJson (v : ApiValue).

Inductive Reply : Type :=
| SendJson (status : nat) (b : Body)
| SendText (status : nat) (s : string)
| RedirectAuthorize (client_id : option string) (scope redirect_uri state : string)
| RedirectHome.

Inductive Request : Type :=
| GetLogin
| GetCallback (code : option string) (state : option string)
| GetToken
| GetMe
| PutTransfer (device_id : option string)
| PostPlay (uris : option (list string)) (device_id : option string).

Record Outcome : Type := mkOutcome {
  reply : Reply;
  after : State;
  calls : list Call;
  logged : list string
}.

(** [return accessToken && Date.now() < accessTokenExpiresAt - 60_000;]. *)
Definition hasValidAccessToken (t : float) (s : State) : bool :=
  Json.truthy_string (accessToken s) && (t <? accessTokenExpiresAt s - 60000).

(** [refreshAccessToken()] and [exchangeCodeForToken(code)] after the
    request is sent: [None] is a throw (the request fails, the response is
    not ok, or its text is not JSON), [Some d] the parsed text. *)
Definition token_result (a : TokenAnswer) : option (option TokenData) :=
  match a with
  | TokenUnreachable => None
  | TokenResponse false _ => None
  | TokenResponse true parsed => parsed
  end.

(** [data.expires_in * 1000]; a missing member gives [NaN]. *)
Definition lifetime_ms (d : TokenData) : float :=
  match expires_in d with
  | Some seconds => seconds * 1000
  | None => nan
  end.

(** [getAccessToken()]: the token ([None]: it throws), the new globals and
    the requests sent. *)
Definition getAccessToken (e : Env) (s : State)
  : option (option string) * State * list Call :=
  if hasValidAccessToken (now e) s then (Some (accessToken s), s, [])
  else if negb (Json.truthy_string (refreshToken s)) then (None, s, [])
  else
    match token_result (token_answer e) with
    | None => (None, s, [CallRefresh (refreshToken s)])
    | Some None => (None, s, [CallRefresh (refreshToken s)])
    | Some (Some d) =>
        (Some (access_token d),
         mkState (access_token d) (refreshToken s)
                 (later e + lifetime_ms d) (oauthState s),
         [CallRefresh (refreshToken s)])
    end.

(** [spotifyFetch(endpoint, token, options)] after the request is sent:
    [inr status] is a throw with [error.status]. *)
Definition spotifyFetch (a : ApiAnswer) : ApiValue + option nat :=
  match a with
  | ApiUnreachable => inr None
  | ApiResponse status text parsed =>
      if negb (Json.ok status) then inr (Some status)
      else if String.eqb text "" then inl VNull
      else
        match parsed with
        | Some j => inl (VParsed j)
        | None => inl (VText text)
        end
  end.

(** [error.status || 500]. *)
Definition status_or_500 (status : option nat) : nat :=
  match status with
  | Some O => 500
  | Some n => n
  | None => 500
  end.

(** [SCOPES.join(" ")]. *)
Definition SCOPE : string :=
  "streaming user-read-email user-read-private user-read-playback-state user-modify-playback-state".

(** [state !== oauthState] negated: a missing query parameter is
    [undefined] and never equals the initial [null]. *)
Definition same_state (state oauth : option string) : bool :=
  match state, oauth with
  | Some a, Some b => String.eqb a b
  | _, _ => false
  end.

(** [data.refresh_token || refreshToken]. *)
Definition or_old (fresh old : option string) : option string :=
  if Json.truthy_string fresh then fresh else old.

(** [app.get("/login", ...)]. *)
Definition login (c : Config) (e : Env) (s : State) : Outcome :=
  if negb (Json.truthy_string (CLIENT_ID c))
     || negb (Json.truthy_string (CLIENT_SECRET c))
  then mkOutcome
         (SendText 500 "Missing Spotify credentials. Check your .env file.")
         s [] []
  else
    mkOutcome
      (RedirectAuthorize (CLIENT_ID c) SCOPE (REDIRECT_URI c) (nonce e))
      (mkState (accessToken s) (refreshToken s) (accessTokenExpiresAt s)
               (Some (nonce e)))
      [] [].

(** [app.get("/callback", ...)]. *)
Definition callback (e : Env) (s : State)
    (code state : option string) : Outcome :=
  match code with
  | Some c =>
      if negb (Json.truthy_string code) || negb (same_state state (oauthState s))
      then mkOutcome
             (SendText 400 "Invalid OAuth state. Try logging in again.") s [] []
      else
        match token_result (token_answer e) with
        | Some (Some d) =>
            mkOutcome RedirectHome
              (mkState (access_token d)
                       (or_old (refresh_token d) (refreshToken s))
                       (later e + lifetime_ms d) (oauthState s))
              [CallExchange c] []
        | _ =>
            mkOutcome (SendText 500 "Failed to authenticate with Spotify.")
              s [CallExchange c] ["Token exchange failed"%string]
        end
  | None =>
      mkOutcome
        (SendText 400 "Invalid OAuth state. Try logging in again.") s [] []
  end.

(** [app.get("/token", ...)]. *)
Definition token (e : Env) (s : State) : Outcome :=
  match getAccessToken e s with
  | (Some t, s', sent) =>
      mkOutcome (SendJson 200 (TokenJson t (accessTokenExpiresAt s'))) s' sent []
  | (None, s', sent) =>
      mkOutcome (SendJson 401 (ErrorJson "not_authenticated")) s' sent []
  end.

(** [app.get("/api/me", ...)]. *)
Definition me (e : Env) (s : State) : Outcome :=
  match getAccessToken e s with
  | (Some t, s', sent) =>
      match spotifyFetch (api_answer e) with
      | inl profile =>
          mkOutcome (SendJson 200 (ValueJson profile)) s' (sent ++ [CallMe t]) []
      | inr _ =>
          mkOutcome (SendJson 401 (ErrorJson "not_authenticated")) s'
            (sent ++ [CallMe t]) []
      end
  | (None, s', sent) =>
      mkOutcome (SendJson 401 (ErrorJson "not_authenticated")) s' sent []
  end.

(** [app.put("/api/transfer", ...)]. *)
Definition transfer (e : Env) (s : State) (device_id : option string)
  : Outcome :=
  match device_id with
  | Some id =>
      if negb (Json.truthy_string device_id)
      then mkOutcome (SendJson 400 (ErrorJson "missing_device_id")) s [] []
      else
        match getAccessToken e s with
        | (Some t, s', sent) =>
            match spotifyFetch (api_answer e) with
            | inl _ =>
                mkOutcome (SendJson 200 OkJson) s'
                  (sent ++ [CallTransfer t id]) []
            | inr status =>
                mkOutcome
                  (SendJson (status_or_500 status) (ErrorJson "transfer_failed"))
                  s' (sent ++ [CallTransfer t id]) ["Transfer failed"%string]
            end
        | (None, s', sent) =>
            mkOutcome (SendJson 500 (ErrorJson "transfer_failed")) s' sent
              ["Transfer failed"%string]
        end
  | None => mkOutcome (SendJson 400 (ErrorJson "missing_device_id")) s [] []
  end.

(** [app.post("/api/play", ...)]; [uris] is [None] when the body has no
    array under that name.  The [device_id] parameter is put in the
    endpoint only when it is truthy. *)
Definition play (e : Env) (s : State)
    (uris : option (list string)) (device_id : option string) : Outcome :=
  match uris with
  | None | Some [] =>
      mkOutcome (SendJson 400 (ErrorJson "missing_uris")) s [] []
  | Some (u :: us) =>
      match getAccessToken e s with
      | (Some t, s', sent) =>
          let target :=
            if Json.truthy_string device_id then device_id else None in
          match spotifyFetch (api_answer e) with
          | inl _ =>
              mkOutcome (SendJson 200 OkJson) s'
                (sent ++ [CallPlay t target (u :: us)]) []
          | inr status =>
              mkOutcome
                (SendJson (status_or_500 status) (ErrorJson "play_failed"))
                s' (sent ++ [CallPlay t target (u :: us)])
                ["Play failed"%string]
          end
      | (None, s', sent) =>
          mkOutcome (SendJson 500 (ErrorJson "play_failed")) s' sent
            ["Play failed"%string]
      end
  end.

(** The routes, by request. *)
Definition handle (c : Config) (e : Env) (s : State) (r : Request) : Outcome :=
  match r with
  | GetLogin => login c e s
  | GetCallback code state => callback e s code state
  | GetToken => token e s
  | GetMe => me e s
  | PutTransfer device_id => transfer e s device_id
  | PostPlay uris device_id => play e s uris device_id
  end.

(** The routes that use a token: all but [/login] and [/callback]. *)
Definition uses_token (r : Request) : bool :=
  match r with
  | GetLogin | GetCallback _ _ => false
  | _ => true
  end.

Definition is_login (r : Request) : bool :=
  match r with
  | GetLogin => true
  | _ => false
  end.

(** The token a call to the Web API carries; [None] for a call to the
    token endpoint. *)
Definition bearer (c : Call) : option (option string) :=
  match c with
  | CallRefresh _ | CallExchange _ => None
  | CallMe t | CallTransfer t _ | CallPlay t _ _ => Some t
  end.

(** A run of requests, each with what it meets, from the given globals. *)
Definition serve (c : Config) (requests : list (Env * Request)) (s : State)
  : State :=
  fold_left (fun s er => after (handle c (fst er) s (snd er))) requests s.

(** Everything the routes send to Spotify over such a run, in order. *)
Fixpoint traffic (c : Config) (requests : list (Env * Request)) (s : State)
  : list Call :=
  match requests with
  | [] => []
  | er :: rest =>
      calls (handle c (fst er) s (snd er))
      ++ traffic c rest (after (handle c (fst er) s (snd er)))
  end.

End Server.

(** ** The player page: views, requests and handlers

    The part of [app.js] before the sensor code.  A handler is given what
    its request is answered ([Fetched]) and returns the new [state] object,
    the new view and the requests it sent.  The page is one that has the
    login section, the application section and the status line, which the
    handlers use without a test.  [handleSearch], [renderResults],
    [formatNowPlaying] and [initPlayer] are left out. *)

Module Ui.

(** The [state] object: [deviceId] and [player] start as [null]. *)
Record AppState : Type := mkApp {
  deviceId : option string;
  has_player : bool;
  authenticated : bool;
  sdkReady : bool
}.

(** What [setStatus] is given as a message: a literal, or the template
    [`Connected as ${who}`] with the value it prints ([None]: [undefined]). *)
Inductive Message : Type :=
| Say (s : string)
| ConnectedAs (who : option Json.t).

(** The class lists of the two sections and the status line. *)
Record View : Type := mkView {
  login_classes : list string;
  app_classes : list string;
  status_message : Message;
  status_tone : string
}.

(** [classList.add(token)] and [classList.remove(token)]. *)
Definition add_class (token : string) (classes : list string) : list string :=
  if existsb (String.eqb token) classes then classes else classes ++ [token].

Definition remove_class (token : string) (classes : list string)
  : list string :=
  filter (fun c => negb (String.eqb c token)) classes.

Definition has_class (token : string) (classes : list string) : bool :=
  existsb (String.eqb token) classes.

(** [setStatus(message, tone)]. *)
Definition setStatus (m : Message) (tone : string) (v : View) : View :=
  mkView (login_classes v) (app_classes v) m tone.

(** [showLogin()]. *)
Definition showLogin (v : View) : View :=
  mkView (remove_class "hidden" (login_classes v))
         (add_class "hidden" (app_classes v))
         (status_message v) (status_tone v).

(** [showApp()]. *)
Definition showApp (v : View) : View :=
  mkView (add_class "hidden" (login_classes v))
         (remove_class "hidden" (app_classes v))
         (status_message v) (status_tone v).

(** The body of a response: it cannot be read ([response.text()] and
    [response.json()] reject), or it is read, and is JSON or not ([None]:
    [response.json()] rejects). *)
Inductive Content : Type :=
| Unreadable
| Readable (json : option Json.t).

(** How a [fetch] goes: it rejects, or a response arrives with its status
    and its body. *)
Inductive Fetched : Type :=
| Unreachable
| Answered (status : nat) (body : Content).

(** The requests the handlers send. *)
Inductive Sent : Type :=
| SentMe
| SentTransfer (device_id : option string)
| SentPlay (uris : list string) (device_id : option string).

(** [apiGet(path)] once the request is answered: [inr status] is a throw
    with [error.status] ([None]: the error has none).  For a response that
    is not ok the text is read before the status is put on the error, so
    that an unreadable body throws an error without a status.  The message
    of the error, which no caller reads, is not kept. *)
Definition apiGet (f : Fetched) : Json.t + option nat :=
  match f with
  | Unreachable => inr None
  | Answered status body =>
      if negb (Json.ok status) then
        match body with
        | Unreadable => inr None
        | Readable _ => inr (Some status)
        end
      else
        match body with
        | Readable (Some j) => inl j
        | Readable None => inr None
        | Unreadable => inr None
        end
  end.

(** [apiSend(path, method, body)] once the request is answered; a status of
    204 gives [null] without the body being read. *)
Definition apiSend (f : Fetched) : Json.t + option nat :=
  match f with
  | Unreachable => inr None
  | Answered status body =>
      if negb (Json.ok status) then
        match body with
        | Unreadable => inr None
        | Readable _ => inr (Some status)
        end
      else if (status =? 204)%nat then inl Json.JNull
      else
        match body with
        | Readable (Some j) => inl j
        | Readable None => inr None
        | Unreadable => inr None
        end
  end.

(** [error.status === n]. *)
Definition is_status (n : nat) (status : option nat) : bool :=
  match status with
  | Some m => (m =? n)%nat
  | None => false
  end.

(** What a handler leaves: the [state] object, the view, the requests sent
    and whether [initPlayer()] was called. *)
Record Done : Type := mkDone {
  app : AppState;
  view : View;
  sent : list Sent;
  player_started : bool
}.

(** The [catch] block of [checkSession]. *)
Definition not_connected (st : AppState) (v : View) : Done :=
  mkDone (mkApp (deviceId st) (has_player st) false (sdkReady st))
         (setStatus (Say "Not connected") "info" (showLogin v))
         [SentMe] false.

(** [profile.display_name || profile.id] on a profile that is not
    [null]. *)
Definition shown_name (profile : Json.t) : option Json.t :=
  match Json.get profile "display_name" with
  | inl name =>
      if Json.truthy name then name
      else match Json.get profile "id" with
           | inl id => id
           | inr _ => None
           end
  | inr _ => None
  end.

(** [checkSession()].  Reading [profile.display_name] of a [null] profile
    throws after [showApp()] has run, and so does the template when the
    name cannot be converted to a text; the [catch] block then runs on that
    view.  [initPlayer()] is an async function: calling it throws
    nothing. *)
Definition checkSession (f : Fetched) (st : AppState) (v : View) : Done :=
  match apiGet f with
  | inl profile =>
      match Json.get profile "display_name" with
      | inl _ =>
          if Json.printable (shown_name profile) then
            mkDone (mkApp (deviceId st) (has_player st) true (sdkReady st))
                   (setStatus (ConnectedAs (shown_name profile)) "ok"
                      (showApp v))
                   [SentMe] (sdkReady st)
          else not_connected st (showApp v)
      | inr _ => not_connected st (showApp v)
      end
  | inr _ => not_connected st v
  end.

(** [transferPlayback()]. *)
Definition transferPlayback (f : Fetched) (st : AppState) (v : View) : Done :=
  if negb (Json.truthy_string (deviceId st))
  then mkDone st (setStatus (Say "Player not ready yet") "warn" v) [] false
  else
    match apiSend f with
    | inl _ =>
        mkDone st (setStatus (Say "Playback transferred to browser") "ok" v)
          [SentTransfer (deviceId st)] false
    | inr status =>
        if is_status 401 status then
          mkDone st
            (setStatus (Say "Please connect to Spotify") "warn" (showLogin v))
            [SentTransfer (deviceId st)] false
        else
          mkDone st (setStatus (Say "Transfer failed. Try again.") "error" v)
            [SentTransfer (deviceId st)] false
    end.

(** [playTrack(uri)]. *)
Definition playTrack (uri : string) (f : Fetched) (st : AppState) (v : View)
  : Done :=
  let ready := Json.truthy_string (deviceId st) in
  let request := SentPlay [uri] (if ready then deviceId st else None) in
  let v0 :=
    if ready then v
    else setStatus (Say "Web player not ready; trying active device") "warn" v in
  match apiSend f with
  | inl _ => mkDone st (setStatus (Say "Playing") "ok" v0) [request] false
  | inr status =>
      if is_status 401 status then
        mkDone st
          (setStatus (Say "Please connect to Spotify") "warn" (showLogin v0))
          [request] false
      else if is_status 404 status then
        mkDone st
          (setStatus
             (Say "No active device found. Open Spotify on any device and start playback once.")
             "warn" v0)
          [request] false
      else if is_status 403 status then
        mkDone st
          (setStatus (Say "Spotify Premium required for playback") "error" v0)
          [request] false
      else
        mkDone st (setStatus (Say "Playback failed") "error" v0) [request] false
  end.

End Ui.

(** ** The page talking to the server *)

Module Wire.

(** [JSON.parse(JSON.stringify(j))] for a parsed value [j]: a number that
    is not finite (["1e999"] parses to [Infinity]) is written as [null],
    at the top and inside arrays and objects, and [-0] is written as [0]. *)
Fixpoint reserialise (j : Json.t) : Json.t :=
  match j with
  | Json.JNum f =>
      if Described.finite f
      then Json.JNum (if PrimFloat.eqb f 0 then 0%float else f)
      else Json.JNull
  | Json.JArr items => Json.JArr (map reserialise items)
  | Json.JObj members =>
      Json.JObj
        (map (fun kv : string * Json.t => let (k, v) := kv in (k, reserialise v))
             members)
  | other => other
  end.

(** [res.json(body)], which sends [JSON.stringify(body)], read back by
    [response.json()]. *)
Definition encode (b : Server.Body) : Json.t :=
  match b with
  | Server.ErrorJson code => Json.JObj [("error"%string, Json.JStr code)]
  | Server.OkJson => Json.JObj [("ok"%string, Json.JBool true)]
  | Server.TokenJson t expires =>
      Json.JObj
        ((match t with
          | Some t => [("access_token"%string, Json.JStr t)]
          | None => []
          end)
         ++ [("expires_at"%string,
              if Described.finite expires then Json.JNum expires
              else Json.JNull)])
  | Server.ValueJson Server.VNull => Json.JNull
  | Server.ValueJson (Server.VParsed j) => reserialise j
  | Server.ValueJson (Server.VText s) => Json.JStr s
  end.

(** The request of the page as the route receives it. *)
Definition request (s : Ui.Sent) : Server.Request :=
  match s with
  | Ui.SentMe => Server.GetMe
  | Ui.SentTransfer device_id => Server.PutTransfer device_id
  | Ui.SentPlay uris device_id => Server.PostPlay (Some uris) device_id
  end.

(** The reply of a route as [fetch] delivers it over a connection that
    carries the reply whole; the routes the page calls reply with JSON
    only. *)
Definition deliver (r : Server.Reply) : Ui.Fetched :=
  match r with
  | Server.SendJson status b =>
      Ui.Answered status (Ui.Readable (Some (encode b)))
  | Server.SendText status _ => Ui.Answered status (Ui.Readable None)
  | Server.RedirectAuthorize _ _ _ _ => Ui.Unreachable
  | Server.RedirectHome => Ui.Unreachable
  end.

(** What the page is answered when it sends [s] to a server in state
    [srv]. *)
Definition ask (c : Server.Config) (e : Server.Env) (srv : Server.State)
    (s : Ui.Sent) : Ui.Fetched :=
  deliver (Server.reply (Server.handle c e srv (request s))).

(** The request [playTrack] builds: the device only when there is one. *)
Definition play_request (uri : string) (st : Ui.AppState) : Ui.Sent :=
  Ui.SentPlay [uri]
    (if Json.truthy_string (Ui.deviceId st) then Ui.deviceId st else None).

(** The handlers of the page run against the server. *)
Definition checkSession (c : Server.Config) (e : Server.Env)
    (srv : Server.State) (st : Ui.AppState) (v : Ui.View) : Ui.Done :=
  Ui.checkSession (ask c e srv Ui.SentMe) st v.

Definition transferPlayback (c : Server.Config) (e : Server.Env)
    (srv : Server.State) (st : Ui.AppState) (v : Ui.View) : Ui.Done :=
  Ui.transferPlayback (ask c e srv (Ui.SentTransfer (Ui.deviceId st))) st v.

Definition playTrack (c : Server.Config) (e : Server.Env)
    (srv : Server.State) (uri : string) (st : Ui.AppState) (v : Ui.View)
  : Ui.Done :=
  Ui.playTrack uri (ask c e srv (play_request uri st)) st v.

(** A server that has logged in an hour ago at time 0, and what a request
    meets a second later when Spotify answers with the given status. *)
Definition logged_in : Server.State :=
  Server.mkState (Some "token"%string) (Some "refresh"%string) 3600000
                 (Some "abc"%string).

Definition meets (status : nat) : Server.Env :=
  Server.mkEnv 1000 1000 "abc" Server.TokenUnreachable
    (Server.ApiResponse status "" None).

Definition config : Server.Config :=
  Server.mkConfig (Some "id"%string) (Some "secret"%string)
                  "http://localhost:3000/callback".

Definition ready : Ui.AppState :=
  Ui.mkApp (Some "device"%string) true true true.

Definition blank : Ui.View :=
  Ui.mkView ["panel"%string; "hidden"%string] ["panel"%string]
            (Ui.Say "") "info".

End Wire.

(** ** Facts about binary64 comparison and subtraction *)

Section FloatFacts.

Local Open Scope float_scope.

Lemma SFcompare_antisym (x y : spec_float) :
  SFcompare y x = option_map CompOpp (SFcompare x y).
Proof.
  destruct x as [sx|sx| |sx mx ex], y as [sy|sy| |sy my ey]; simpl;
    try reflexivity;
    try (destruct sx; reflexivity); try (destruct sy; reflexivity);
    try (destruct sx, sy; reflexivity).
  destruct sx, sy; simpl; try reflexivity;
    rewrite (Z.compare_antisym ey ex);
    destruct (ey ?= ex)%Z; simpl; try reflexivity;
    pose proof (Pos.compare_cont_antisym mx my Eq) as H; simpl in H;
    rewrite <- H; reflexivity.
Qed.

Lemma ltb_leb (a b : float) : (a <? b) = true -> (a <=? b) = true.
Proof.
  rewrite FloatAxioms.ltb_spec, FloatAxioms.leb_spec. unfold SFltb, SFleb.
  destruct (SFcompare _ _) as [[ | | ]|]; congruence.
Qed.

Lemma ltb_not_geb (a b : float) : (a <? b) = true -> (b <=? a) = false.
Proof.
  rewrite FloatAxioms.ltb_spec, FloatAxioms.leb_spec. unfold SFltb, SFleb.
  rewrite (SFcompare_antisym (Prim2SF a) (Prim2SF b)).
  destruct (SFcompare _ _) as [[ | | ]|]; simpl; congruence.
Qed.

Lemma ltb_asym (a b : float) : (a <? b) = true -> (b <? a) = false.
Proof.
  intros H. destruct (b <? a) eqn:E; [|reflexivity].
  apply ltb_leb in E. rewrite (ltb_not_geb _ _ H) in E. discriminate.
Qed.

Lemma sub_diag (c : float) : Described.finite c = true -> c - c = 0.
Proof.
  unfold Described.finite. intros Hc.
  apply Prim2SF_inj. rewrite FloatAxioms.sub_spec.
  destruct (Prim2SF c) as [s|s| |s m e]; try discriminate.
  - destruct s; reflexivity.
  - unfold SF64sub, SFsub. rewrite Z.sub_diag. reflexivity.
Qed.

End FloatFacts.

(** ** Step detection *)

Section StepDetection.

Import Js Cadence Described.
Local Open Scope float_scope.

(** A first sample that is not above the threshold leaves the flag machine
    where it started. *)
Lemma walk_skips_low_head (t d : float) (rest : list float) :
  (t <? d) = false -> walk t (d :: rest) 0 false = walk t rest 0 false.
Proof.
  intros H. simpl. rewrite H. simpl. destruct (d <? t); reflexivity.
Qed.

Lemma transitions_step (t a b : float) (rest : list float) :
  transitions t (a :: b :: rest)
  = Nat.add (if (a <=? t) && (t <? b) then 1%nat else 0%nat)
            (transitions t (b :: rest)).
Proof. reflexivity. Qed.

(** Over samples that are all strictly off the threshold, the flag is the
    previous sample's side, and the walk counts transitions. *)
Lemma walk_counts_transitions (t : float) :
  forall (rest : list float) (prev : float) (steps : nat),
    forallb (off_threshold t) (prev :: rest) = true ->
    walk t rest steps (t <? prev) = (steps + transitions t (prev :: rest))%nat.
Proof.
  induction rest as [|b r IH]; intros prev steps H.
  - simpl. lia.
  - rewrite (transitions_step t prev b r).
    cbn [forallb] in H.
    apply andb_true_iff in H. destruct H as [Hprev Hrest].
    assert (Hb : off_threshold t b = true)
      by (cbn [forallb] in Hrest; apply andb_true_iff in Hrest; tauto).
    unfold off_threshold in Hprev, Hb.
    cbn [walk].
    destruct (t <? b) eqn:Eb.
    + destruct (t <? prev) eqn:Ep; cbn [negb andb].
      * rewrite (ltb_asym _ _ Eb), (ltb_not_geb _ _ Ep). cbn [andb].
        rewrite <- Eb. rewrite (IH b steps Hrest). lia.
      * rewrite orb_false_r in Hprev. rewrite (ltb_leb _ _ Hprev). cbn [andb].
        rewrite <- Eb at 1. rewrite (IH b (S steps) Hrest). lia.
    + rewrite orb_false_r in Hb. rewrite Hb, andb_false_r. cbn [andb].
      rewrite <- Eb at 1. rewrite (IH b steps Hrest). lia.
Qed.

(** The loop never adds a step where no sample is above the threshold. *)
Lemma walk_none_above (t : float) :
  forall (samples : list float) (steps : nat) (cross : bool),
    forallb (fun d => negb (t <? d)) samples = true ->
    walk t samples steps cross = steps.
Proof.
  induction samples as [|d r IH]; intros steps cross H; [reflexivity|].
  cbn [forallb] in H. apply andb_true_iff in H. destruct H as [Hd Hr].
  apply negb_true_iff in Hd. cbn [walk]. rewrite Hd. cbn [andb].
  destruct (d <? t); apply IH; exact Hr.
Qed.

End StepDetection.

Section StepClaims.

Import Js Cadence Described Frames.
Local Open Scope float_scope.

(** C1, as the code has it.  For every non-stationary frame whose first
    sample is not above the threshold [T = avg + 0.7 * stdDev], the step
    count that [calculateSPM] turns into a cadence is the count of the
    flag machine walked over the whole frame (a step at each sample above
    [T] while [cross] is false; [cross] reset only by a sample strictly
    below [T]).  If moreover every sample is strictly above or strictly
    below [T], that count is the number of transitions from a sample at or
    below [T] to a sample above [T]. *)
Theorem steps_are_rising_edges
    (data : list float) (durationMs : float) (history : list float) :
  stationary data = false ->
  (threshold data <? hd 0 data) = false ->
  countSteps data = wholeFrameCount data
  /\ calculateSPM data durationMs history
     = (smoothed (push_shift history (rawSpm (wholeFrameCount data) durationMs)),
        push_shift history (rawSpm (wholeFrameCount data) durationMs))
  /\ (forallb (off_threshold (threshold data)) data = true ->
      countSteps data = transitions (threshold data) data).
Proof.
  intros Hmoving Hfirst.
  assert (Hsame : countSteps data = wholeFrameCount data).
  { unfold countSteps, wholeFrameCount. destruct data as [|d0 rest].
    - reflexivity.
    - cbn [tl]. cbn [hd] in Hfirst.
      symmetry. apply walk_skips_low_head. exact Hfirst. }
  split; [exact Hsame|]. split.
  - unfold calculateSPM. rewrite Hmoving, Hsame. reflexivity.
  - intros Hoff. unfold countSteps. destruct data as [|d0 rest].
    + reflexivity.
    + cbn [tl]. cbn [hd] in Hfirst. rewrite <- Hfirst at 1.
      rewrite (walk_counts_transitions (threshold (d0 :: rest)) rest d0 0 Hoff).
      reflexivity.
Qed.

Lemma steps_are_rising_edges_witness :
  countSteps (pulse_frame 10) = 10%nat
  /\ wholeFrameCount (pulse_frame 10) = 10%nat
  /\ transitions (threshold (pulse_frame 10)) (pulse_frame 10) = 10%nat
  /\ snd (calculateSPM (pulse_frame 10) 6000 []) = [100].
Proof.
  destruct (steps_are_rising_edges (pulse_frame 10) 6000 [])
    as (Hwhole & Hspm & Htrans).
  - vm_compute. reflexivity.
  - vm_compute. reflexivity.
  - assert (Hoff : forallb (off_threshold (threshold (pulse_frame 10)))
                     (pulse_frame 10) = true) by (vm_compute; reflexivity).
    specialize (Htrans Hoff).
    split; [vm_compute; reflexivity|].
    split; [rewrite <- Hwhole; vm_compute; reflexivity|].
    split; [rewrite <- Htrans; vm_compute; reflexivity|].
    rewrite Hspm. vm_compute. reflexivity.
Defined.

(** C1 as the specification states it fails twice.  On [spike_first] the
    first sample is the only one above the threshold: the walk over all
    200 samples counts one crossing, the code counts none.  On [plateau]
    the threshold is exactly 10 and the samples go 0, 15, 10, 15, 10, ...:
    a sample equal to the threshold does not reset the flag, so the code
    (and the walk over the whole frame) counts one step where there are
    six transitions from at-or-below to above. *)
Lemma steps_not_whole_frame_count :
  ~ (forall data : list float,
        length data = 200%nat -> stationary data = false ->
        countSteps data = wholeFrameCount data
        /\ wholeFrameCount data = transitions (threshold data) data)
  /\ (length spike_first = 200%nat /\ stationary spike_first = false
      /\ countSteps spike_first = 0%nat
      /\ wholeFrameCount spike_first = 1%nat)
  /\ (length plateau = 200%nat /\ stationary plateau = false
      /\ threshold plateau = 10
      /\ countSteps plateau = 1%nat
      /\ wholeFrameCount plateau = 1%nat
      /\ transitions (threshold plateau) plateau = 6%nat).
Proof.
  split.
  - intros H. destruct (H spike_first) as [Hc _];
      [vm_compute; reflexivity | vm_compute; reflexivity |].
    vm_compute in Hc. discriminate Hc.
  - split; vm_compute; repeat split; reflexivity.
Qed.

(** C10.  The loop runs over the samples at indices 1 and up: the count is
    the walk over the tail of the frame, with the threshold taken from the
    whole frame, first sample included.  So for every non-stationary frame
    where no sample after the first is above the threshold, whatever the
    first sample is, no step is counted and the raw cadence pushed is that
    of zero steps. *)
Theorem first_sample_is_not_a_candidate
    (d0 : float) (rest : list float) (durationMs : float) (history : list float) :
  stationary (d0 :: rest) = false ->
  forallb (fun d => negb (threshold (d0 :: rest) <? d)) rest = true ->
  countSteps (d0 :: rest) = walk (threshold (d0 :: rest)) rest 0 false
  /\ countSteps (d0 :: rest) = 0%nat
  /\ snd (calculateSPM (d0 :: rest) durationMs history)
     = push_shift history (rawSpm 0 durationMs).
Proof.
  intros Hmoving Hnone.
  assert (Hzero : countSteps (d0 :: rest) = 0%nat).
  { unfold countSteps. cbn [tl]. apply walk_none_above. exact Hnone. }
  split; [reflexivity|]. split; [exact Hzero|].
  unfold calculateSPM. rewrite Hmoving, Hzero. reflexivity.
Qed.

Lemma first_sample_is_not_a_candidate_witness :
  (threshold spike_first <? hd 0 spike_first) = true
  /\ countSteps spike_first = 0%nat
  /\ snd (calculateSPM spike_first 4000 []) = [0].
Proof.
  destruct (first_sample_is_not_a_candidate 20 (repeat 0 199) 4000 [])
    as (_ & Hzero & Hspm).
  - vm_compute. reflexivity.
  - vm_compute. reflexivity.
  - split; [vm_compute; reflexivity|].
    split; [exact Hzero|].
    unfold spike_first. rewrite Hspm. vm_compute. reflexivity.
Defined.

(** The first sample does shape the threshold: the same tail under a
    different first sample has another mean, variance and threshold. *)
Example first_sample_shapes_threshold :
  average spike_first = 0x1.999999999999ap-4
  /\ average (0 :: tl spike_first) = 0
  /\ (threshold (0 :: tl spike_first) <? threshold spike_first) = true.
Proof. vm_compute. repeat split; reflexivity. Qed.

End StepClaims.

(** ** The history of raw cadences *)

Section History.

Import Js Cadence Described.
Local Open Scope float_scope.

Lemma push_shift_length (history : list float) (raw : float) :
  (length history <= 3)%nat -> (length (push_shift history raw) <= 3)%nat.
Proof.
  intros H. unfold push_shift.
  destruct (3 <? length (history ++ [raw]))%nat eqn:E.
  - destruct (history ++ [raw]) as [|x rest] eqn:Eh.
    + simpl. lia.
    + assert (Hlen : length (x :: rest) = S (length history))
        by (rewrite <- Eh, length_app; simpl; lia).
      simpl in Hlen. simpl. lia.
  - apply Nat.ltb_ge in E. exact E.
Qed.

Lemma push_shift_nonempty (history : list float) (raw : float) :
  exists first rest, push_shift history raw = first :: rest.
Proof.
  unfold push_shift.
  destruct (3 <? length (history ++ [raw]))%nat eqn:E.
  - apply Nat.ltb_lt in E.
    destruct (history ++ [raw]) as [|x [|y rest]]; simpl in E; try lia.
    exists y, rest. reflexivity.
  - destruct history as [|x rest]; simpl; eauto.
Qed.

(** The value pushed is the newest entry; what is kept before it is the old
    history, or the old history without its oldest entry. *)
Lemma push_shift_shape (history : list float) (raw : float) :
  exists kept, push_shift history raw = kept ++ [raw]
               /\ (kept = history \/ kept = tl history).
Proof.
  unfold push_shift.
  destruct (3 <? length (history ++ [raw]))%nat eqn:E.
  - apply Nat.ltb_lt in E. destruct history as [|x rest].
    + simpl in E. lia.
    + exists rest. split; [reflexivity | right; reflexivity].
  - exists history. split; [reflexivity | left; reflexivity].
Qed.

Lemma calculateSPM_history_length
    (data : list float) (durationMs : float) (history : list float) :
  (length history <= 3)%nat ->
  (length (snd (calculateSPM data durationMs history)) <= 3)%nat.
Proof.
  intros H. unfold calculateSPM. destruct (stationary data); simpl.
  - exact H.
  - apply push_shift_length. exact H.
Qed.

Lemma handleAcceleration_history_length (ev : Motion.MotionEvent) (w : World) :
  (length (spmHistory w) <= 3)%nat ->
  (length (spmHistory (Motion.handleAcceleration ev w)) <= 3)%nat.
Proof.
  intros H. unfold Motion.handleAcceleration.
  destruct (Motion.acceleration ev) as [acc|]; [|exact H].
  destruct (Motion.acc_x acc) as [x|]; [|exact H].
  destruct (NUM_DATA_PER_FRAME <=? _)%nat; [|exact H].
  pose proof (calculateSPM_history_length
                (normData w ++
                   [PrimFloat.sqrt (Math_pow2 x + Math_pow2 (Motion.acc_y acc)
                                    + Math_pow2 (Motion.acc_z acc))])
                (sum (intervalData w ++
                        [Motion.interval_or_default (Motion.interval ev)]))
                (spmHistory w) H) as Hc.
  destruct (calculateSPM _ _ _) as [spm h]. simpl in Hc. simpl. exact Hc.
Qed.

Lemma updateSongBpm_history (r : Tempo.Response) (w : World) :
  spmHistory (snd (Tempo.updateSongBpm r w)) = spmHistory w.
Proof.
  unfold Tempo.updateSongBpm, Tempo.try_block.
  destruct r as [e|e|[|[bpm|]]]; try reflexivity.
  destruct (Json.held_truthy bpm); reflexivity.
Qed.

Lemma step_history_length (w : World) (t : Tick) :
  (length (spmHistory w) <= 3)%nat ->
  (length (spmHistory (step w t)) <= 3)%nat.
Proof.
  intros H. destruct t as [ev|r]; simpl.
  - apply handleAcceleration_history_length. exact H.
  - rewrite updateSongBpm_history. exact H.
Qed.

Lemma run_history_length (ticks : list Tick) :
  forall w, (length (spmHistory w) <= 3)%nat ->
            (length (spmHistory (fold_left step ticks w)) <= 3)%nat.
Proof.
  induction ticks as [|t rest IH]; intros w H; simpl.
  - exact H.
  - apply IH. apply step_history_length. exact H.
Qed.

(** One full frame through the handler: the buffers are emptied, the raw
    cadence of 375 is in the history and on the page, and with no tempo
    fetched yet no score is written. *)
Example session_of_one_frame :
  normData (session Frames.shaking Frames.full_page) = []
  /\ intervalData (session Frames.shaking Frames.full_page) = []
  /\ spmHistory (session Frames.shaking Frames.full_page) = [375]
  /\ page (session Frames.shaking Frames.full_page)
     = mkPage (Some (Number 375)) (Some (Markup "--")) (Some "#333"%string)
              (Some (Markup "--"))
  /\ spmHistory (session (Frames.shaking ++ Frames.shaking ++ Frames.shaking
                          ++ Frames.shaking) Frames.full_page)
     = [375; 375; 375].
Proof. vm_compute. repeat split; reflexivity. Qed.

(** C5.  Whatever motion events and tempo polls a session is made of, the
    history never holds more than three entries once a handler has
    returned.  A push onto fewer than three entries appends; a push onto
    three entries drops the oldest and keeps the other two before the new
    value. *)
Theorem history_holds_at_most_three :
  (forall (ticks : list Tick) (p : Page),
      (length (spmHistory (session ticks p)) <= 3)%nat)
  /\ (forall (data : list float) (durationMs : float) (history : list float),
         (length history <= 3)%nat ->
         (length (snd (calculateSPM data durationMs history)) <= 3)%nat)
  /\ (forall a b c raw : float, push_shift [a; b; c] raw = [b; c; raw])
  /\ (forall (history : list float) (raw : float),
         (length history < 3)%nat -> push_shift history raw = history ++ [raw]).
Proof.
  split; [|split; [|split]].
  - intros ticks p. unfold session. apply run_history_length. simpl. lia.
  - exact calculateSPM_history_length.
  - reflexivity.
  - intros history raw H. unfold push_shift.
    destruct (3 <? length (history ++ [raw]))%nat eqn:E; [|reflexivity].
    apply Nat.ltb_lt in E. rewrite length_app in E. simpl in E. lia.
Qed.

End History.

(** ** The estimator *)

Section Estimator.

Import Js Cadence Described Frames.
Local Open Scope float_scope.

Lemma fold_constant_deviation (c : float) (n : nat) :
  c - c = 0 ->
  fold_left (fun a b => a + Math_pow2 (b - c)) (repeat c n) 0 = 0.
Proof.
  intros Hc. induction n as [|n IH]; [reflexivity|].
  simpl. rewrite Hc. exact IH.
Qed.

(** A constant frame of a finite magnitude whose mean comes out exact has a
    computed variance of exactly 0. *)
Lemma constant_frame_variance (c : float) :
  finite c = true -> average (repeat c 200) = c ->
  variance (repeat c 200) = 0.
Proof.
  intros Hfin Havg. unfold variance. rewrite Havg.
  rewrite (fold_constant_deviation c 200 (sub_diag c Hfin)).
  rewrite repeat_length. reflexivity.
Qed.

(** C2, as the code has it.  For every frame whose variance, as the code
    computes it in binary64, is strictly below 0.1, [calculateSPM] returns
    exactly 0 and leaves [spmHistory] as it was, whatever the duration.  A
    frame of 200 equal finite magnitudes is such a frame whenever its
    computed mean is the magnitude itself: its computed variance is then
    exactly 0. *)
Theorem stationary_frame_yields_zero
    (data : list float) (durationMs : float) (history : list float) :
  stationary data = true
  \/ (exists c, finite c = true /\ data = repeat c 200 /\ average data = c) ->
  calculateSPM data durationMs history = (0, history).
Proof.
  intros H.
  assert (Hs : stationary data = true).
  { destruct H as [H | (c & Hfin & -> & Havg)]; [exact H|].
    unfold stationary. rewrite (constant_frame_variance c Hfin Havg).
    reflexivity. }
  unfold calculateSPM. rewrite Hs. reflexivity.
Qed.

Lemma stationary_frame_yields_zero_witness :
  calculateSPM at_rest 4000 [100; 110] = (0, [100; 110])
  /\ calculateSPM (repeat 10 100 ++ repeat 10.5 100) 4000 [100; 110]
     = (0, [100; 110]).
Proof.
  split.
  - apply (stationary_frame_yields_zero at_rest 4000 [100; 110]).
    right. exists 9.75. repeat split; vm_compute; reflexivity.
  - apply (stationary_frame_yields_zero
             (repeat 10 100 ++ repeat 10.5 100) 4000 [100; 110]).
    left. vm_compute. reflexivity.
Defined.

(** C2 as the specification states it fails on constant frames of very
    large magnitude.  Adding 79878199125732.5 two hundred times rounds, the
    computed mean falls 0.359375 below the magnitude and the computed
    variance is 0.129150390625: the frame is taken as moving, one step is
    counted and 15 is pushed into the history. *)
Lemma constant_frame_counted_as_moving :
  ~ (forall (c durationMs : float) (history : list float),
        finite c = true ->
        calculateSPM (repeat c 200) durationMs history = (0, history))
  /\ finite 79878199125732.5 = true
  /\ huge_constant = repeat 79878199125732.5 200
  /\ variance huge_constant = 0.129150390625
  /\ stationary huge_constant = false
  /\ calculateSPM huge_constant 4000 [] = (15, [15]).
Proof.
  split.
  - intros H. specialize (H 79878199125732.5 4000 [] eq_refl).
    vm_compute in H. discriminate H.
  - vm_compute. repeat split; reflexivity.
Qed.

(** C3, as the code has it.  A frame leaves the history untouched exactly
    when it is stationary.  Every other frame pushes its raw cadence,
    whatever that value is, zero included: the new history ends with it,
    after the old entries or after all of them but the oldest. *)
Theorem history_pushed_iff_moving
    (data : list float) (durationMs : float) (history : list float) :
  (stationary data = true ->
   snd (calculateSPM data durationMs history) = history)
  /\ (stationary data = false ->
      exists kept,
        snd (calculateSPM data durationMs history)
        = kept ++ [rawSpm (countSteps data) durationMs]
        /\ (kept = history \/ kept = tl history)).
Proof.
  unfold calculateSPM. split; intros Hs; rewrite Hs; simpl.
  - reflexivity.
  - apply push_shift_shape.
Qed.

Lemma history_pushed_iff_moving_witness :
  snd (calculateSPM at_rest 4000 [100]) = [100]
  /\ snd (calculateSPM (pulse_frame 11) 6000 [100]) = [100; 110].
Proof.
  split.
  - apply (proj1 (history_pushed_iff_moving at_rest 4000 [100])).
    vm_compute. reflexivity.
  - destruct (proj2 (history_pushed_iff_moving (pulse_frame 11) 6000 [100]))
      as (kept & Heq & _).
    + vm_compute. reflexivity.
    + vm_compute. reflexivity.
Defined.

(** C3 as the specification states it fails: a raw cadence of 0 is pushed.
    On [dip_last] the variance is 0.4975 and no sample is above the
    threshold, so no step is counted and 0 enters the history.  On a frame
    with one pulse that lasts 200 seconds the single step rounds to 0 steps
    per minute, and 0 enters the history. *)
Lemma zero_raw_cadence_is_pushed :
  ~ (forall (data : list float) (durationMs : float) (history : list float),
        snd (calculateSPM data durationMs history) <> history ->
        (0 <? rawSpm (countSteps data) durationMs) = true)
  /\ (stationary dip_last = false /\ countSteps dip_last = 0%nat
      /\ calculateSPM dip_last 4000 [] = (0, [0]))
  /\ (countSteps (pulse_frame 1) = 1%nat
      /\ calculateSPM (pulse_frame 1) 200000 [] = (0, [0])).
Proof.
  split.
  - intros H. specialize (H dip_last 4000 []).
    assert (Hpush : snd (calculateSPM dip_last 4000 []) <> [])
      by (vm_compute; discriminate).
    specialize (H Hpush). vm_compute in H. discriminate H.
  - vm_compute. repeat split; reflexivity.
Qed.

End Estimator.

(** ** A frame of zero duration *)

Section ZeroDuration.

Import Js Cadence Described Frames.
Local Open Scope float_scope.

Lemma walk_bound (t : float) :
  forall (samples : list float) (steps : nat) (cross : bool),
    (walk t samples steps cross <= steps + length samples)%nat.
Proof.
  induction samples as [|d r IH]; intros steps cross; simpl; [lia|].
  destruct ((t <? d) && negb cross).
  - specialize (IH (S steps) true). lia.
  - destruct (d <? t).
    + specialize (IH steps false). lia.
    + specialize (IH steps cross). lia.
Qed.

Lemma countSteps_bound (data : list float) :
  (countSteps data <= length data - 1)%nat.
Proof.
  unfold countSteps.
  pose proof (walk_bound (threshold data) (tl data) 0 false) as H.
  destruct data as [|d rest]; simpl in *; lia.
Qed.

(** Over a duration of 0 ms, any count of steps from 1 to 199 gives a raw
    cadence of [Infinity]. *)
Lemma rawSpm_zero_duration (n : nat) :
  (1 <= n < 200)%nat -> rawSpm n 0 = infinity.
Proof.
  intros Hn.
  assert (Hall : forallb (fun k => Leibniz.eqb (rawSpm k 0) infinity)
                   (seq 1 199) = true) by (vm_compute; reflexivity).
  rewrite forallb_forall in Hall.
  apply FloatAxioms.Leibniz.eqb_spec. apply Hall. apply in_seq. lia.
Qed.

(** The interval recorded for an event is never zero and never [NaN]: a
    missing, zero or [NaN] interval is replaced by 20. *)
Lemma recorded_interval_truthy (i : option float) :
  truthy (Motion.interval_or_default i) = true.
Proof.
  destruct i as [v|]; simpl; [|reflexivity].
  unfold or_else. destruct (truthy v) eqn:E; [exact E | reflexivity].
Qed.

(** C4, as the code has it.  [calculateSPM] has no guard on the duration.
    For every non-stationary frame of at most 200 samples and a total
    duration of 0 ms the division by zero is performed: the raw cadence is
    [NaN] when no step was counted and [Infinity] when one was, that value is
    pushed into the history, and the value returned is the rounded mean of
    the history that now holds it.  A stationary frame returns 0 before any
    division.  What keeps the duration away from zero is upstream: every
    interval [handleAcceleration] records is neither zero nor [NaN], a
    missing or zero one being replaced by 20. *)
Theorem zero_duration_is_divided_by :
  (forall (data : list float) (history : list float),
      (length data <= 200)%nat ->
      stationary data = false ->
      calculateSPM data 0 history
      = (smoothed (push_shift history (rawSpm (countSteps data) 0)),
         push_shift history (rawSpm (countSteps data) 0))
      /\ (exists kept,
             push_shift history (rawSpm (countSteps data) 0)
             = kept ++ [rawSpm (countSteps data) 0])
      /\ ((countSteps data = 0%nat /\ rawSpm (countSteps data) 0 = nan)
          \/ ((0 < countSteps data)%nat
              /\ rawSpm (countSteps data) 0 = infinity)))
  /\ (forall (data : list float) (history : list float),
         stationary data = true -> calculateSPM data 0 history = (0, history))
  /\ (forall i : option float,
         truthy (Motion.interval_or_default i) = true).
Proof.
  split; [|split].
  - intros data history Hlen Hmoving. split; [|split].
    + unfold calculateSPM. rewrite Hmoving. reflexivity.
    + destruct (push_shift_shape history (rawSpm (countSteps data) 0))
        as (kept & Heq & _).
      exists kept. exact Heq.
    + pose proof (countSteps_bound data) as Hb.
      destruct (countSteps data) as [|n] eqn:E.
      * left. split; reflexivity.
      * right. split; [lia|]. apply rawSpm_zero_duration. lia.
  - intros data history Hs. unfold calculateSPM. rewrite Hs. reflexivity.
  - exact recorded_interval_truthy.
Qed.

Lemma zero_duration_is_divided_by_witness :
  calculateSPM (pulse_frame 3) 0 [] = (infinity, [infinity])
  /\ calculateSPM spike_first 0 [100] = (nan, [100; nan]).
Proof.
  split.
  - destruct (proj1 zero_duration_is_divided_by (pulse_frame 3) [])
      as (Heq & _ & _).
    + vm_compute. lia.
    + vm_compute. reflexivity.
    + rewrite Heq. vm_compute. reflexivity.
  - destruct (proj1 zero_duration_is_divided_by spike_first [100])
      as (Heq & _ & _).
    + vm_compute. lia.
    + vm_compute. reflexivity.
    + rewrite Heq. vm_compute. reflexivity.
Defined.

(** C4 as the specification states it fails: with a duration of 0 ms a
    non-stationary frame does produce a value.  On a frame with three
    pulses the raw cadence is [3 / 0 * 60 = Infinity]; it is pushed into the
    history and [Infinity] is returned as the cadence. *)
Lemma zero_duration_yields_infinity :
  ~ (forall (data : list float) (history : list float),
        length data = 200%nat ->
        snd (calculateSPM data 0 history) = history)
  /\ length (pulse_frame 3) = 200%nat
  /\ stationary (pulse_frame 3) = false
  /\ countSteps (pulse_frame 3) = 3%nat
  /\ calculateSPM (pulse_frame 3) 0 [] = (infinity, [infinity]).
Proof.
  split.
  - intros H. specialize (H (pulse_frame 3) [] eq_refl).
    vm_compute in H. discriminate H.
  - vm_compute. repeat split; reflexivity.
Qed.

End ZeroDuration.

(** ** The smoother *)

Section Smoother.

Import Js Cadence Described Frames.
Local Open Scope float_scope.

(** C6.  For every non-stationary frame the value returned is
    [Math.round] of the mean of the history as it is after the push: the sum
    of its entries, oldest first, divided by their number.  Frames of 10, 11
    and 9 steps in 6 seconds push 100, 110 and 90 into an empty history, and
    the third returns [round (300 / 3) = 100]; a fourth frame of 12 steps
    pushes 120, drops 100 and returns [round (320 / 3) = 107]. *)
Theorem smoothed_is_rounded_mean :
  (forall (data : list float) (durationMs : float) (history : list float),
      stationary data = false ->
      exists first rest,
        snd (calculateSPM data durationMs history) = first :: rest
        /\ first :: rest
           = push_shift history (rawSpm (countSteps data) durationMs)
        /\ fst (calculateSPM data durationMs history)
           = Math_round (fold_left PrimFloat.add rest first
                         / of_nat (length (first :: rest))))
  /\ (rawSpm (countSteps (pulse_frame 10)) 6000 = 100
      /\ rawSpm (countSteps (pulse_frame 11)) 6000 = 110
      /\ rawSpm (countSteps (pulse_frame 9)) 6000 = 90
      /\ rawSpm (countSteps (pulse_frame 12)) 6000 = 120)
  /\ calculateSPM (pulse_frame 10) 6000 [] = (100, [100])
  /\ calculateSPM (pulse_frame 11) 6000 [100] = (105, [100; 110])
  /\ calculateSPM (pulse_frame 9) 6000 [100; 110] = (100, [100; 110; 90])
  /\ calculateSPM (pulse_frame 12) 6000 [100; 110; 90] = (107, [110; 90; 120]).
Proof.
  split.
  - intros data durationMs history Hmoving.
    unfold calculateSPM. rewrite Hmoving. cbn [fst snd].
    destruct (push_shift_nonempty history (rawSpm (countSteps data) durationMs))
      as (first & rest & Heq).
    exists first, rest. rewrite Heq. repeat split; reflexivity.
  - vm_compute. repeat split; reflexivity.
Qed.

Lemma smoothed_is_rounded_mean_witness :
  fst (calculateSPM (pulse_frame 12) 6000 [100; 110; 90])
  = Math_round ((110 + 90 + 120) / 3).
Proof.
  destruct (proj1 smoothed_is_rounded_mean (pulse_frame 12) 6000 [100; 110; 90])
    as (first & rest & Hh & _ & Hval).
  - vm_compute. reflexivity.
  - rewrite Hval.
    assert (Hl : first :: rest = [110; 90; 120])
      by (rewrite <- Hh; vm_compute; reflexivity).
    injection Hl as -> ->. vm_compute. reflexivity.
Defined.

End Smoother.

(** ** The synchronisation score *)

Section Score.

Import Js Described Frames.
Local Open Scope float_scope.

(** On whole numbers from 1 to 300 the binary64 computation is the integer
    formula: nothing is rounded. *)
Lemma syncRate_on_integers (cadence tempo : Z) :
  (1 <= cadence <= 300)%Z -> (1 <= tempo <= 300)%Z ->
  Sync.syncRate (of_Z cadence) (of_Z tempo) = of_Z (score cadence tempo).
Proof.
  intros Hc Ht.
  assert (Hall :
            forallb (fun c =>
              forallb (fun t =>
                Leibniz.eqb (Sync.syncRate (of_Z c) (of_Z t)) (of_Z (score c t)))
                (upto 300))
              (upto 300) = true) by (vm_compute; reflexivity).
  assert (Hin : forall z, (1 <= z <= 300)%Z -> In z (upto 300)).
  { intros z Hz. unfold upto. apply in_map_iff. exists (Z.to_nat z).
    split; [lia | apply in_seq; lia]. }
  rewrite forallb_forall in Hall. specialize (Hall cadence (Hin cadence Hc)).
  rewrite forallb_forall in Hall. specialize (Hall tempo (Hin tempo Ht)).
  apply FloatAxioms.Leibniz.eqb_spec. exact Hall.
Qed.

(** When the guard fails, only the cadence text is written. *)
Lemma updateSyncDisplay_guard_fails (spm : float) (w : World) :
  (0 <? spm) && (0 <? Json.to_number (currentSongBpm w)) = false ->
  Sync.updateSyncDisplay spm w
  = mkWorld (normData w) (intervalData w) (spmHistory w) (currentSongBpm w)
            (mkPage (assign (current_spm (page w)) (Number spm))
                    (sync_rate (page w)) (sync_circle (page w))
                    (bpm_val (page w)))
            (console w).
Proof.
  intros H. unfold Sync.updateSyncDisplay. rewrite H. reflexivity.
Qed.

(** C7.  For every cadence above 0 while the stored tempo is above 0, the
    score is [max(0, 100 - |cadence - tempo|)]: the sync-rate element, when
    the page has it, is given that score rounded and followed by a percent
    sign, and the circle is coloured by whether the score is above 90.  On
    whole cadences and tempos up to 300 the score is the integer formula.
    A cadence of 120 against a tempo of 120 scores 100; 150 against 120
    scores 70. *)
Theorem sync_score_formula :
  (forall (spm : float) (w : World),
      (0 <? spm) = true -> (0 <? Json.to_number (currentSongBpm w)) = true ->
      Sync.syncRate spm (Json.to_number (currentSongBpm w))
      = Math_max 0 (100 - Math_abs (spm - Json.to_number (currentSongBpm w)))
      /\ sync_rate (page (Sync.updateSyncDisplay spm w))
         = assign (sync_rate (page w))
             (Percent (Math_round (Sync.syncRate spm (Json.to_number (currentSongBpm w)))))
      /\ sync_circle (page (Sync.updateSyncDisplay spm w))
         = assign (sync_circle (page w))
             (if 90 <? Sync.syncRate spm (Json.to_number (currentSongBpm w))
              then "#1DB954"%string else "#333"%string))
  /\ (forall cadence tempo : Z,
         (1 <= cadence <= 300)%Z -> (1 <= tempo <= 300)%Z ->
         Sync.syncRate (of_Z cadence) (of_Z tempo)
         = of_Z (Z.max 0 (100 - Z.abs (cadence - tempo))))
  /\ Sync.syncRate 120 120 = 100
  /\ Sync.syncRate 150 120 = 70.
Proof.
  split; [|split; [|split]].
  - intros spm w Hs Hb. unfold Sync.updateSyncDisplay.
    rewrite Hs, Hb. cbn [andb page sync_rate sync_circle].
    repeat split; reflexivity.
  - exact syncRate_on_integers.
  - reflexivity.
  - reflexivity.
Qed.

Lemma sync_score_formula_witness :
  sync_rate (page (Sync.updateSyncDisplay 150 tempo_120)) = Some (Percent 70)
  /\ sync_circle (page (Sync.updateSyncDisplay 150 tempo_120))
     = Some "#333"%string
  /\ sync_rate (page (Sync.updateSyncDisplay 120 tempo_120)) = Some (Percent 100)
  /\ sync_circle (page (Sync.updateSyncDisplay 120 tempo_120))
     = Some "#1DB954"%string.
Proof.
  destruct (proj1 sync_score_formula 150 tempo_120) as (_ & Hr1 & Hc1);
    [reflexivity | reflexivity |].
  destruct (proj1 sync_score_formula 120 tempo_120) as (_ & Hr2 & Hc2);
    [reflexivity | reflexivity |].
  rewrite Hr1, Hc1, Hr2, Hc2. repeat split; reflexivity.
Defined.

(** C8, as the code has it.  When [updateSyncDisplay] runs with a cadence of
    0, or while the stored tempo is still the initial 0 (or reads as the
    number 0), no score is computed and nothing is written to the sync-rate
    element or to the circle: both stay exactly as they were, so a score
    shown by an earlier tick stays on the page.  Only the cadence text is
    updated. *)
Theorem no_score_leaves_display (spm : float) (w : World) :
  spm = 0 \/ Json.to_number (currentSongBpm w) = 0 ->
  sync_rate (page (Sync.updateSyncDisplay spm w)) = sync_rate (page w)
  /\ sync_circle (page (Sync.updateSyncDisplay spm w)) = sync_circle (page w)
  /\ current_spm (page (Sync.updateSyncDisplay spm w))
     = assign (current_spm (page w)) (Number spm)
  /\ bpm_val (page (Sync.updateSyncDisplay spm w)) = bpm_val (page w)
  /\ currentSongBpm (Sync.updateSyncDisplay spm w) = currentSongBpm w.
Proof.
  intros H.
  assert (Hg : (0 <? spm) && (0 <? Json.to_number (currentSongBpm w)) = false).
  { destruct H as [-> | ->].
    - reflexivity.
    - apply andb_false_iff. right. reflexivity. }
  rewrite (updateSyncDisplay_guard_fails spm w Hg).
  repeat split; reflexivity.
Qed.

Lemma no_score_leaves_display_witness :
  sync_rate (page (Sync.updateSyncDisplay 0 tempo_120)) = Some (Markup "--")
  /\ sync_rate (page (Sync.updateSyncDisplay 110 (initial full_page)))
     = Some (Markup "--").
Proof.
  split.
  - rewrite (proj1 (no_score_leaves_display 0 tempo_120 (or_introl eq_refl))).
    reflexivity.
  - rewrite (proj1 (no_score_leaves_display 110 (initial full_page)
                      (or_intror eq_refl))).
    reflexivity.
Defined.

(** C8 as the specification states it fails: after a tick with cadence 150
    against a tempo of 120 has written 70%, a tick with cadence 0 leaves
    70% on the page. *)
Lemma stale_score_stays_displayed :
  ~ (forall (spm : float) (w : World),
        spm = 0 \/ Json.to_number (currentSongBpm w) = 0 ->
        forall f, sync_rate (page (Sync.updateSyncDisplay spm w))
                  <> Some (Percent f))
  /\ sync_rate (page (Sync.updateSyncDisplay 150 tempo_120)) = Some (Percent 70)
  /\ sync_rate (page (Sync.updateSyncDisplay 0
                        (Sync.updateSyncDisplay 150 tempo_120)))
     = Some (Percent 70).
Proof.
  split.
  - intros H.
    apply (H 0 (Sync.updateSyncDisplay 150 tempo_120) (or_introl eq_refl) 70).
    reflexivity.
  - split; reflexivity.
Qed.

End Score.

(** ** The tempo poll *)

Section Poll.

Import Js Described Frames.
Local Open Scope float_scope.

(** The promise returned by [updateSongBpm] is never rejected. *)
Lemma updateSongBpm_fulfilled (r : Tempo.Response) (w : World) :
  fst (Tempo.updateSongBpm r w) = Tempo.Fulfilled.
Proof.
  unfold Tempo.updateSongBpm. destruct (Tempo.try_block r w); reflexivity.
Qed.




End Poll.

(** ** Sessions: the buffers *)

Section Buffers.

Import Js Cadence Stream.
Local Open Scope float_scope.

(** What the handler does to an event it buffers, with the frame test left
    visible. *)
Lemma handleAcceleration_usable (ev : Motion.MotionEvent) (w : World) :
  usable ev = true ->
    Motion.handleAcceleration ev w
    = let nd := normData w ++ [magnitude ev] in
      let id := intervalData w
                ++ [Motion.interval_or_default (Motion.interval ev)] in
      if (NUM_DATA_PER_FRAME <=? length nd)%nat then
        let r := calculateSPM nd (sum id) (spmHistory w) in
        let w1 := Sync.updateSyncDisplay (fst r)
                    (mkWorld nd id (snd r) (currentSongBpm w) (page w)
                       (console w)) in
        mkWorld [] [] (spmHistory w1) (currentSongBpm w1) (page w1) (console w1)
      else mkWorld nd id (spmHistory w) (currentSongBpm w) (page w) (console w).
Proof.
  unfold usable, magnitude, Motion.handleAcceleration. intros H.
  destruct (Motion.acceleration ev) as [acc|]; [|discriminate].
  destruct (Motion.acc_x acc) as [x|]; [|discriminate].
  cbv zeta.
  destruct (NUM_DATA_PER_FRAME <=? _)%nat; [|reflexivity].
  destruct (calculateSPM _ _ _) as [spm h]. reflexivity.
Qed.

Lemma handleAcceleration_unusable (ev : Motion.MotionEvent) (w : World) :
  usable ev = false -> Motion.handleAcceleration ev w = w.
Proof.
  unfold usable, Motion.handleAcceleration. intros H.
  destruct (Motion.acceleration ev) as [acc|]; [|reflexivity].
  destruct (Motion.acc_x acc) as [x|]; [discriminate | reflexivity].
Qed.


Lemma samples_cons (t : Tick) (rest : list Tick) :
  samples (t :: rest) = (samples [t] + samples rest)%nat.
Proof.
  unfold samples. cbn [filter].
  destruct t as [ev|r]; [destruct (usable ev)|]; reflexivity.
Qed.



End Buffers.

(** ** Sessions: what motion events and tempo polls each own *)

Section Ownership.

Import Js Cadence Stream.
Local Open Scope float_scope.

Lemma present_assign {A : Type} (el : option A) (v : A) :
  present (assign el v) = present el.
Proof. destruct el; reflexivity. Qed.

(** [updateSyncDisplay] writes to the page only: to the cadence text always,
    to the score and the circle under its guard, never to the tempo text. *)
Lemma updateSyncDisplay_frame (spm : float) (w : World) :
  normData (Sync.updateSyncDisplay spm w) = normData w
  /\ intervalData (Sync.updateSyncDisplay spm w) = intervalData w
  /\ spmHistory (Sync.updateSyncDisplay spm w) = spmHistory w
  /\ currentSongBpm (Sync.updateSyncDisplay spm w) = currentSongBpm w
  /\ console (Sync.updateSyncDisplay spm w) = console w
  /\ current_spm (page (Sync.updateSyncDisplay spm w))
     = assign (current_spm (page w)) (Number spm)
  /\ bpm_val (page (Sync.updateSyncDisplay spm w)) = bpm_val (page w)
  /\ same_elements (page (Sync.updateSyncDisplay spm w)) (page w).
Proof.
  unfold Sync.updateSyncDisplay, same_elements.
  destruct ((0 <? spm) && (0 <? Json.to_number (currentSongBpm w))); cbn;
    rewrite ?present_assign; repeat split; reflexivity.
Qed.

(** The motion handler never touches the tempo, the tempo text or the
    console, and it neither creates nor removes an element. *)
Lemma handleAcceleration_keeps_tempo (ev : Motion.MotionEvent) (w : World) :
  same_tempo (Motion.handleAcceleration ev w) w
  /\ same_elements (page (Motion.handleAcceleration ev w)) (page w).
Proof.
  destruct (usable ev) eqn:Hu.
  - rewrite (handleAcceleration_usable ev w Hu). cbv zeta.
    destruct (NUM_DATA_PER_FRAME <=? _)%nat.
    + match goal with
      | |- context [Sync.updateSyncDisplay ?s ?v] =>
          destruct (updateSyncDisplay_frame s v)
            as (_ & _ & _ & Hb & Hc & _ & Hv & He)
      end.
      unfold same_tempo. cbn [currentSongBpm page console].
      rewrite Hb, Hc, Hv. cbn. repeat split; try reflexivity; apply He.
    + unfold same_tempo, same_elements. cbn. repeat split; reflexivity.
  - rewrite (handleAcceleration_unusable ev w Hu).
    unfold same_tempo, same_elements. repeat split; reflexivity.
Qed.


(** A poll never touches the buffers, the history or the cadence text, and
    it neither creates nor removes an element. *)
Lemma updateSongBpm_keeps_cadence (r : Tempo.Response) (w : World) :
  same_cadence (snd (Tempo.updateSongBpm r w)) w
  /\ same_elements (page (snd (Tempo.updateSongBpm r w))) (page w).
Proof.
  unfold Tempo.updateSongBpm, Tempo.try_block, same_cadence, same_elements.
  destruct r as [e|e|[|[bpm|]]]; cbn; try (repeat split; reflexivity).
  destruct (Json.held_truthy bpm); cbn; rewrite ?present_assign;
    repeat split; reflexivity.
Qed.

(** What a poll does to the tempo, the tempo text and the console is decided
    by those alone; the tempo it leaves is the one it stored, if any. *)
Lemma updateSongBpm_same_tempo (r : Tempo.Response) (a b : World) :
  same_tempo a b ->
  same_tempo (snd (Tempo.updateSongBpm r a)) (snd (Tempo.updateSongBpm r b))
  /\ currentSongBpm (snd (Tempo.updateSongBpm r a))
     = match stored r with
       | Some bpm => bpm
       | None => currentSongBpm a
       end.
Proof.
  intros (Hb & Hv & Hc).
  unfold Tempo.updateSongBpm, Tempo.try_block, same_tempo, stored.
  destruct r as [e|e|[|[bpm|]]]; cbn; rewrite ?Hc;
    try (repeat split; (reflexivity || assumption)).
  destruct (Json.held_truthy bpm); cbn; rewrite ?Hv;
    repeat split; (reflexivity || assumption).
Qed.


Lemma run_same_tempo (ticks : list Tick) :
  forall a b, same_tempo a b ->
    same_tempo (fold_left step ticks a)
               (fold_left step (filter is_poll ticks) b)
    /\ currentSongBpm (fold_left step ticks a)
       = last_stored (currentSongBpm a) ticks.
Proof.
  unfold last_stored.
  induction ticks as [|t rest IH]; intros a b H; [split; [exact H | reflexivity]|].
  destruct t as [ev|r]; cbn [filter is_poll is_motion negb fold_left step].
  - destruct (handleAcceleration_keeps_tempo ev a) as ((Hb & Hv & Hc) & _).
    rewrite <- Hb. apply IH.
    destruct H as (Hb' & Hv' & Hc').
    unfold same_tempo. rewrite Hb, Hv, Hc. repeat split; assumption.
  - destruct (updateSongBpm_same_tempo r a b H) as (Hsame & Hcur).
    rewrite <- Hcur. apply IH. exact Hsame.
Qed.


(** The stored tempo, the tempo text and the console after a session are
    those of the session with every motion event removed, and the stored
    tempo is the [bpm] of the most recent poll that returned a truthy one (0
    if there was none). *)
Theorem tempo_ignores_motion (ticks : list Tick) (p : Page) :
  currentSongBpm (session ticks p)
  = currentSongBpm (session (filter is_poll ticks) p)
  /\ bpm_val (page (session ticks p))
     = bpm_val (page (session (filter is_poll ticks) p))
  /\ console (session ticks p) = console (session (filter is_poll ticks) p)
  /\ currentSongBpm (session ticks p) = last_stored (Json.Num 0) ticks.
Proof.
  destruct (run_same_tempo ticks (initial p) (initial p))
    as ((Hb & Hv & Hc) & Hlast).
  - repeat split; reflexivity.
  - repeat split; assumption.
Qed.

End Ownership.

(** ** Sessions: the tempo and the page *)

Section TempoAndPage.

Import Js Cadence Stream.
Local Open Scope float_scope.

Lemma last_stored_step (start : Json.held) (t : Tick) (rest : list Tick) :
  last_stored start (t :: rest)
  = last_stored (last_stored start [t]) rest.
Proof. reflexivity. Qed.

Lemma stored_truthy (r : Tempo.Response) (bpm : Json.held) :
  stored r = Some bpm -> Json.held_truthy bpm = true.
Proof.
  unfold stored. destruct r as [e|e|[|[b|]]]; try discriminate.
  destruct (Json.held_truthy b) eqn:E; [|discriminate].
  intros H. injection H as <-. exact E.
Qed.

Lemma last_stored_keeps_truthy (ticks : list Tick) :
  forall start, Json.held_truthy start = true ->
                Json.held_truthy (last_stored start ticks) = true.
Proof.
  induction ticks as [|t rest IH]; intros start H; [exact H|].
  rewrite last_stored_step. apply IH.
  destruct t as [ev|r]; [exact H|]. cbn.
  destruct (stored r) as [bpm|] eqn:E; [|exact H].
  exact (stored_truthy r bpm E).
Qed.

Lemma last_stored_start_or_truthy (ticks : list Tick) :
  forall start,
    last_stored start ticks = start
    \/ Json.held_truthy (last_stored start ticks) = true.
Proof.
  induction ticks as [|t rest IH]; intros start; [left; reflexivity|].
  rewrite last_stored_step.
  destruct t as [ev|r]; [exact (IH start)|]. cbn.
  destruct (stored r) as [bpm|] eqn:E; [|exact (IH start)].
  right. apply last_stored_keeps_truthy. exact (stored_truthy r bpm E).
Qed.

Lemma last_stored_numeric (ticks : list Tick) :
  forall f, forallb numeric_bpm ticks = true ->
            exists g, last_stored (Json.Num f) ticks = Json.Num g.
Proof.
  induction ticks as [|t rest IH]; intros f H; [exists f; reflexivity|].
  cbn [forallb] in H. apply andb_true_iff in H. destruct H as [Ht Hrest].
  rewrite last_stored_step.
  destruct t as [ev|r]; [exact (IH f Hrest)|]. cbn.
  destruct r as [e|e|[|[[g| |b|s x|x|]|]]];
    try discriminate Ht; cbn; try exact (IH f Hrest).
  destruct (truthy g); [exact (IH g Hrest) | exact (IH f Hrest)].
Qed.

(** Over every session the stored tempo is the initial 0 or a truthy value
    that a payload carried.  Once a truthy tempo is stored, no later event
    or poll, failed or not, makes it 0 or falsy again.  When the [bpm] of
    every payload is a number, the stored tempo is a number, and it is 0 or
    neither 0 nor [NaN]. *)
Theorem tempo_never_reverts :
  (forall (ticks : list Tick) (p : Page),
      currentSongBpm (session ticks p) = Json.Num 0
      \/ Json.held_truthy (currentSongBpm (session ticks p)) = true)
  /\ (forall (ticks more : list Tick) (p : Page),
         Json.held_truthy (currentSongBpm (session ticks p)) = true ->
         Json.held_truthy (currentSongBpm (session (ticks ++ more) p)) = true)
  /\ (forall (ticks : list Tick) (p : Page),
         forallb numeric_bpm ticks = true ->
         exists f, currentSongBpm (session ticks p) = Json.Num f
                   /\ (f = 0 \/ truthy f = true)).
Proof.
  split; [|split].
  - intros ticks p. unfold session.
    destruct (run_same_tempo ticks (initial p) (initial p)) as (_ & ->).
    + repeat split; reflexivity.
    + apply last_stored_start_or_truthy.
  - intros ticks more p H. unfold session in *. rewrite fold_left_app.
    destruct (run_same_tempo more (fold_left step ticks (initial p))
                (fold_left step ticks (initial p))) as (_ & ->).
    + repeat split; reflexivity.
    + apply last_stored_keeps_truthy. exact H.
  - intros ticks p Hnum. unfold session.
    destruct (run_same_tempo ticks (initial p) (initial p)) as (_ & Hlast).
    + repeat split; reflexivity.
    + rewrite Hlast. cbn [initial currentSongBpm].
      destruct (last_stored_numeric ticks 0 Hnum) as (g & Hg).
      exists g. split; [exact Hg|].
      destruct (last_stored_start_or_truthy ticks (Json.Num 0)) as [H0 | Ht].
      * left. rewrite Hg in H0. injection H0 as ->. reflexivity.
      * right. rewrite Hg in Ht. exact Ht.
Qed.

Lemma tempo_never_reverts_witness :
  Json.held_truthy
    (currentSongBpm
       (session ([PollTick (Tempo.Json (Tempo.BodyObject (Some (Json.Num 120))))]
                 ++ [PollTick (Tempo.Json (Tempo.BodyObject (Some (Json.Num 0))));
                     PollTick (Tempo.FetchRejected "offline");
                     PollTick (Tempo.Json (Tempo.BodyObject None))])
          Frames.full_page)) = true
  /\ exists f,
       currentSongBpm
         (session [PollTick (Tempo.Json (Tempo.BodyObject (Some (Json.Num 120))));
                   PollTick (Tempo.Json (Tempo.BodyObject (Some (Json.Num 0))))]
            Frames.full_page) = Json.Num f
       /\ (f = 0 \/ truthy f = true).
Proof.
  split.
  - apply (proj1 (proj2 tempo_never_reverts)
             [PollTick (Tempo.Json (Tempo.BodyObject (Some (Json.Num 120))))]
             [PollTick (Tempo.Json (Tempo.BodyObject (Some (Json.Num 0))));
              PollTick (Tempo.FetchRejected "offline");
              PollTick (Tempo.Json (Tempo.BodyObject None))]
             Frames.full_page).
    reflexivity.
  - apply (proj2 (proj2 tempo_never_reverts)
             [PollTick (Tempo.Json (Tempo.BodyObject (Some (Json.Num 120))));
              PollTick (Tempo.Json (Tempo.BodyObject (Some (Json.Num 0))))]
             Frames.full_page).
    reflexivity.
Defined.




Lemma same_elements_trans (p q r : Page) :
  same_elements p q -> same_elements q r -> same_elements p r.
Proof.
  unfold same_elements. intros (A1 & A2 & A3 & A4) (B1 & B2 & B3 & B4).
  repeat split; congruence.
Qed.

(** No handler creates or removes an element: over every session each of
    the four elements is on the page exactly if it was there at the start,
    so a page served without an element never shows that value. *)
Theorem elements_neither_created_nor_removed (ticks : list Tick) (p : Page) :
  present (current_spm (page (session ticks p))) = present (current_spm p)
  /\ present (sync_rate (page (session ticks p))) = present (sync_rate p)
  /\ present (sync_circle (page (session ticks p))) = present (sync_circle p)
  /\ present (bpm_val (page (session ticks p))) = present (bpm_val p).
Proof.
  change (same_elements (page (session ticks p)) p). unfold session.
  assert (H0 : same_elements (page (initial p)) p)
    by (repeat split; reflexivity).
  revert H0. generalize (initial p) as w.
  induction ticks as [|t rest IH]; intros w H; [exact H|].
  cbn [fold_left]. apply IH.
  apply (same_elements_trans _ (page w)); [|exact H].
  destruct t as [ev|r]; cbn [step].
  - apply handleAcceleration_keeps_tempo.
  - apply updateSongBpm_keeps_cadence.
Qed.

Lemma updateSongBpm_keeps_score (r : Tempo.Response) (w : World) :
  sync_rate (page (snd (Tempo.updateSongBpm r w))) = sync_rate (page w)
  /\ sync_circle (page (snd (Tempo.updateSongBpm r w))) = sync_circle (page w).
Proof.
  unfold Tempo.updateSongBpm, Tempo.try_block.
  destruct r as [e|e|[|[bpm|]]]; cbn; try (split; reflexivity).
  destruct (Json.held_truthy bpm); cbn; split; reflexivity.
Qed.

Lemma run_quiet (ticks : list Tick) :
  forall w,
    (length (normData w) + samples ticks < 200)%nat ->
    spmHistory (fold_left step ticks w) = spmHistory w
    /\ current_spm (page (fold_left step ticks w)) = current_spm (page w)
    /\ sync_rate (page (fold_left step ticks w)) = sync_rate (page w)
    /\ sync_circle (page (fold_left step ticks w)) = sync_circle (page w).
Proof.
  induction ticks as [|t rest IH]; intros w H; [repeat split; reflexivity|].
  rewrite samples_cons in H. cbn [fold_left].
  assert (Hstep : spmHistory (step w t) = spmHistory w
                  /\ current_spm (page (step w t)) = current_spm (page w)
                  /\ sync_rate (page (step w t)) = sync_rate (page w)
                  /\ sync_circle (page (step w t)) = sync_circle (page w)
                  /\ length (normData (step w t))
                     = (length (normData w) + samples [t])%nat).
  { destruct t as [ev|r]; cbn [step].
    - destruct (usable ev) eqn:Hu.
      + rewrite (handleAcceleration_usable ev w Hu). cbv zeta.
        assert (Hs : samples [MotionTick ev] = 1%nat)
          by (unfold samples; cbn [filter]; rewrite Hu; reflexivity).
        rewrite Hs in *. unfold NUM_DATA_PER_FRAME.
        rewrite length_app. cbn [length].
        destruct (200 <=? length (normData w) + 1)%nat eqn:E;
          [apply Nat.leb_le in E; lia|].
        cbn. rewrite length_app. repeat split; reflexivity.
      + rewrite (handleAcceleration_unusable ev w Hu).
        assert (Hs : samples [MotionTick ev] = 0%nat)
          by (unfold samples; cbn [filter]; rewrite Hu; reflexivity).
        rewrite Hs. repeat split; try reflexivity. lia.
    - destruct (updateSongBpm_keeps_cadence r w) as ((Hn & _ & Hh & Hc) & _).
      destruct (updateSongBpm_keeps_score r w) as (Hr & Hcirc).
      rewrite Hn, Hh, Hc, Hr, Hcirc.
      assert (Hs : samples [PollTick r] = 0%nat) by reflexivity.
      rewrite Hs. repeat split; try reflexivity. lia. }
  destruct Hstep as (Hh & Hc & Hr & Hcirc & Hlen).
  destruct (IH (step w t)) as (Hh' & Hc' & Hr' & Hcirc'); [lia|].
  rewrite Hh', Hc', Hr', Hcirc'. repeat split; assumption.
Qed.

(** Nothing is shown before the first frame is full: while a session has
    buffered fewer than 200 events, the history is empty and the cadence
    text, the score and the circle are as the page was served, whatever
    the polls returned. *)
Theorem nothing_shown_before_first_frame (ticks : list Tick) (p : Page) :
  (samples ticks < 200)%nat ->
  spmHistory (session ticks p) = []
  /\ current_spm (page (session ticks p)) = current_spm p
  /\ sync_rate (page (session ticks p)) = sync_rate p
  /\ sync_circle (page (session ticks p)) = sync_circle p.
Proof.
  intros H. apply (run_quiet ticks (initial p)). exact H.
Qed.

Lemma nothing_shown_before_first_frame_witness :
  spmHistory (session (firstn 199 Frames.shaking
                       ++ [PollTick (Tempo.Json (Tempo.BodyObject (Some (Json.Num 120))))])
                Frames.full_page) = []
  /\ sync_rate (page (session (firstn 199 Frames.shaking
                       ++ [PollTick (Tempo.Json (Tempo.BodyObject (Some (Json.Num 120))))])
                Frames.full_page)) = Some (Markup "--").
Proof.
  destruct (nothing_shown_before_first_frame
              (firstn 199 Frames.shaking
               ++ [PollTick (Tempo.Json (Tempo.BodyObject (Some (Json.Num 120))))])
              Frames.full_page) as (Hh & _ & Hr & _).
  - vm_compute. lia.
  - split; [exact Hh | exact Hr].
Defined.

End TempoAndPage.

(** ** More on step detection *)

Section StepBounds.

Import Js Cadence Stream.
Local Open Scope float_scope.

Lemma above_cons (t d : float) (rest : list float) :
  above t (d :: rest)
  = Nat.add (if t <? d then 1%nat else 0%nat) (above t rest).
Proof. unfold above. cbn [filter]. destruct (t <? d); reflexivity. Qed.

Lemma below_cons (t d : float) (rest : list float) :
  below t (d :: rest)
  = Nat.add (if d <? t then 1%nat else 0%nat) (below t rest).
Proof. unfold below. cbn [filter]. destruct (d <? t); reflexivity. Qed.

Lemma walk_le_above (t : float) :
  forall (l : list float) (steps : nat) (cross : bool),
    (walk t l steps cross <= steps + above t l)%nat.
Proof.
  induction l as [|d r IH]; intros steps cross; [cbn; lia|].
  rewrite above_cons. cbn [walk].
  destruct (t <? d); cbn [andb].
  - destruct cross; cbn [negb].
    + destruct (d <? t); specialize (IH steps); [specialize (IH false) | specialize (IH true)]; lia.
    + specialize (IH (S steps) true). lia.
  - destruct (d <? t); [specialize (IH steps false) | specialize (IH steps cross)]; lia.
Qed.

Lemma walk_le_below (t : float) :
  forall (l : list float) (steps : nat) (cross : bool),
    (walk t l steps cross
     <= steps + below t l + (if cross then 0 else 1))%nat.
Proof.
  induction l as [|d r IH]; intros steps cross; [cbn; lia|].
  rewrite below_cons. cbn [walk].
  destruct (t <? d) eqn:Ea; cbn [andb].
  - destruct cross; cbn [negb].
    + rewrite (ltb_asym _ _ Ea). specialize (IH steps true). cbn in IH. lia.
    + specialize (IH (S steps) true). cbn in IH.
      destruct (d <? t); lia.
  - destruct (d <? t).
    + specialize (IH steps false). cbn in IH. destruct cross; lia.
    + specialize (IH steps cross). lia.
Qed.

Lemma above_below_length (t : float) (l : list float) :
  (above t l + below t l <= length l)%nat.
Proof.
  induction l as [|d r IH]; [cbn; lia|].
  rewrite above_cons, below_cons. cbn [length].
  destruct (t <? d) eqn:Ea.
  - rewrite (ltb_asym _ _ Ea). lia.
  - destruct (d <? t); lia.
Qed.


(** The steps of a frame are at most the samples after the first that are
    above the threshold, and at most one more than those below it: two
    steps need a sample below the threshold between them.  So a frame never
    yields more steps than half its samples, 100 for a frame of 200. *)
Theorem steps_at_most_half_the_samples (data : list float) :
  (countSteps data <= above (threshold data) (tl data))%nat
  /\ (countSteps data <= below (threshold data) (tl data) + 1)%nat
  /\ (2 * countSteps data <= length data)%nat.
Proof.
  unfold countSteps.
  pose proof (walk_le_above (threshold data) (tl data) 0 false) as Ha.
  pose proof (walk_le_below (threshold data) (tl data) 0 false) as Hb.
  pose proof (above_below_length (threshold data) (tl data)) as Hl.
  cbn [Nat.add] in Ha, Hb.
  split; [exact Ha|]. split; [exact Hb|].
  destruct data as [|d0 rest]; cbn [tl length] in *; lia.
Qed.

Lemma walk_over_run_crossed (t : float) (rest : list float) :
  forall (run : list float) (steps : nat),
    forallb (fun d => t <? d) run = true ->
    walk t (run ++ rest) steps true = walk t rest steps true.
Proof.
  induction run as [|d r IH]; intros steps H; [reflexivity|].
  cbn [forallb] in H. apply andb_true_iff in H. destruct H as [Hd Hr].
  cbn [app walk]. rewrite Hd, (ltb_asym _ _ Hd). cbn [andb negb].
  apply IH. exact Hr.
Qed.

(** A sustained excursion counts once.  If the samples at indices 1 to
    [length run] are all above the threshold, they add one step together,
    however many they are, and leave the flag set for what follows. *)
Theorem excursion_counts_once (d0 : float) (run rest : list float) :
  run <> [] ->
  forallb (fun d => threshold (d0 :: run ++ rest) <? d) run = true ->
  countSteps (d0 :: run ++ rest)
  = walk (threshold (d0 :: run ++ rest)) rest 1 true.
Proof.
  intros Hne Hall. unfold countSteps. cbn [tl].
  remember (threshold (d0 :: run ++ rest)) as t eqn:Et. clear Et.
  destruct run as [|d r]; [contradiction|].
  cbn [forallb] in Hall. apply andb_true_iff in Hall. destruct Hall as [Hd Hr].
  cbn [app walk]. rewrite Hd. cbn [andb negb].
  apply walk_over_run_crossed. exact Hr.
Qed.

Lemma excursion_counts_once_witness :
  countSteps (0 :: [20; 20; 20] ++ repeat 0 196) = 1%nat.
Proof.
  rewrite (excursion_counts_once 0 [20; 20; 20] (repeat 0 196)).
  - vm_compute. reflexivity.
  - discriminate.
  - vm_compute. reflexivity.
Defined.

End StepBounds.

(** ** More on the history *)

Section Window.

Import Js Cadence Stream.
Local Open Scope float_scope.

Lemma lastn_short {A : Type} (n : nat) (l : list A) :
  (length l <= n)%nat -> lastn n l = l.
Proof.
  intros H. unfold lastn. replace (length l - n)%nat with 0%nat by lia.
  reflexivity.
Qed.

Lemma lastn_cons {A : Type} (n : nat) (a : A) (l : list A) :
  (n <= length l)%nat -> lastn n (a :: l) = lastn n l.
Proof.
  intros H. unfold lastn. cbn [length].
  replace (S (length l) - n)%nat with (S (length l - n)) by lia.
  reflexivity.
Qed.

Lemma pushes_keep_last_three (raws : list float) :
  forall history, (length history <= 3)%nat ->
    fold_left push_shift raws history = lastn 3 (history ++ raws).
Proof.
  induction raws as [|r rs IH]; intros history H.
  - cbn [fold_left]. rewrite app_nil_r. symmetry. apply lastn_short. exact H.
  - cbn [fold_left]. rewrite (IH (push_shift history r) (push_shift_length history r H)).
    destruct history as [|a [|b [|c [|d rest]]]]; cbn in H; try lia;
      try reflexivity.
    change (push_shift [a; b; c] r) with [b; c; r].
    symmetry. apply (lastn_cons 3 a ([b; c] ++ r :: rs)).
    cbn. lia.
Qed.

(** After any number of pushes the history is the last three raw cadences
    pushed, oldest first (all of them while there are at most three): the
    smoothed cadence never depends on a frame older than the last three
    non-stationary ones. *)
Theorem history_is_last_three_pushed (raws : list float) :
  fold_left push_shift raws [] = lastn 3 raws
  /\ (forall older a b c : float,
         fold_left push_shift (raws ++ [a; b; c]) [older] = [a; b; c]).
Proof.
  split.
  - apply (pushes_keep_last_three raws []). cbn. lia.
  - intros older a b c.
    rewrite (pushes_keep_last_three (raws ++ [a; b; c]) [older])
      by (cbn; lia).
    unfold lastn. rewrite !length_app. cbn [length].
    replace (1 + (length raws + 3) - 3)%nat with (length ([older] ++ raws))
      by (rewrite length_app; cbn; lia).
    rewrite app_assoc, skipn_app, skipn_all, Nat.sub_diag. reflexivity.
Qed.

End Window.

(** ** More on the score *)

Section ScoreShown.

Import Js Described Stream.
Local Open Scope float_scope.

(** The score is never negative, whatever the cadence and the tempo are
    (it is [NaN] when one of them is). *)
Theorem score_never_negative (spm bpm : float) :
  (Sync.syncRate spm bpm <? 0) = false.
Proof.
  unfold Sync.syncRate, Math_max.
  generalize (100 - Math_abs (spm - bpm)). intros x.
  destruct (is_nan 0 || is_nan x); [reflexivity|].
  destruct (0 <? x) eqn:E; [exact (ltb_asym _ _ E)|].
  destruct (x <? 0); reflexivity.
Qed.

(** For a whole cadence and a whole tempo between 1 and 300 the score shown
    is the whole number [max(0, 100 - |cadence - tempo|)], between 0 and 100
    and not changed by the rounding, and the circle is green exactly when
    cadence and tempo differ by less than 10. *)
Theorem score_shown_on_integers (cadence tempo : Z) (w : World) :
  (1 <= cadence <= 300)%Z -> (1 <= tempo <= 300)%Z ->
  Json.to_number (currentSongBpm w) = of_Z tempo ->
  sync_rate (page (Sync.updateSyncDisplay (of_Z cadence) w))
  = assign (sync_rate (page w)) (Percent (of_Z (score cadence tempo)))
  /\ sync_circle (page (Sync.updateSyncDisplay (of_Z cadence) w))
     = assign (sync_circle (page w))
         (if (Z.abs (cadence - tempo) <? 10)%Z
          then "#1DB954"%string else "#333"%string)
  /\ (0 <= score cadence tempo <= 100)%Z.
Proof.
  intros Hc Ht Hb.
  assert (Hall :
            forallb (fun c =>
              forallb (fun t =>
                (0 <? of_Z c) && (0 <? of_Z t)
                && Leibniz.eqb (Math_round (Sync.syncRate (of_Z c) (of_Z t)))
                               (of_Z (score c t))
                && String.eqb (Sync.borderColor (Sync.syncRate (of_Z c) (of_Z t)))
                              (if (Z.abs (c - t) <? 10)%Z
                               then "#1DB954"%string else "#333"%string))
                (upto 300))
              (upto 300) = true) by (vm_compute; reflexivity).
  assert (Hin : forall z, (1 <= z <= 300)%Z -> In z (upto 300)).
  { intros z Hz. unfold upto. apply in_map_iff. exists (Z.to_nat z).
    split; [lia | apply in_seq; lia]. }
  rewrite forallb_forall in Hall. specialize (Hall cadence (Hin cadence Hc)).
  rewrite forallb_forall in Hall. specialize (Hall tempo (Hin tempo Ht)).
  apply andb_true_iff in Hall. destruct Hall as [Hall Hcol].
  apply andb_true_iff in Hall. destruct Hall as [Hall Hround].
  apply andb_true_iff in Hall. destruct Hall as [Hpc Hpt].
  apply FloatAxioms.Leibniz.eqb_spec in Hround. apply String.eqb_eq in Hcol.
  unfold Sync.updateSyncDisplay. rewrite Hb, Hpc, Hpt.
  cbn [andb page sync_rate sync_circle]. rewrite Hround.
  rewrite Hcol.
  repeat split; try reflexivity; unfold score; lia.
Qed.

Lemma score_shown_on_integers_witness :
  sync_rate (page (Sync.updateSyncDisplay (of_Z 111) Frames.tempo_120))
  = Some (Percent 91)
  /\ sync_circle (page (Sync.updateSyncDisplay (of_Z 111) Frames.tempo_120))
     = Some "#1DB954"%string
  /\ sync_circle (page (Sync.updateSyncDisplay (of_Z 110) Frames.tempo_120))
     = Some "#333"%string.
Proof.
  destruct (score_shown_on_integers 111 120 Frames.tempo_120)
    as (Hr & Hc & _); [lia | lia | reflexivity |].
  destruct (score_shown_on_integers 110 120 Frames.tempo_120)
    as (_ & Hc' & _); [lia | lia | reflexivity |].
  rewrite Hr, Hc, Hc'. repeat split; reflexivity.
Defined.

End ScoreShown.

(** ** Sessions without reported intervals *)

Section DefaultInterval.

Import Js Cadence Stream.
Local Open Scope float_scope.










End DefaultInterval.

(** ** The server's tokens *)

Section Tokens.

Import Server.
Local Open Scope float_scope.

Lemma getAccessToken_cached (e : Env) (s : State) :
  hasValidAccessToken (now e) s = true ->
  getAccessToken e s = (Some (accessToken s), s, []).
Proof. intros H. unfold getAccessToken. rewrite H. reflexivity. Qed.

Lemma getAccessToken_without_tokens (e : Env) (s : State) :
  hasValidAccessToken (now e) s = false ->
  Json.truthy_string (refreshToken s) = false ->
  getAccessToken e s = (None, s, []).
Proof. intros H1 H2. unfold getAccessToken. rewrite H1, H2. reflexivity. Qed.

(** While the cached token is valid (it is truthy and expires more than 60
    seconds from now), no route that needs a token contacts the token
    endpoint or changes a global: whatever the route sends goes to the Web
    API with the cached token. *)
Theorem cached_token_needs_no_refresh
    (c : Config) (e : Env) (s : State) (r : Request) :
  hasValidAccessToken (now e) s = true ->
  uses_token r = true ->
  after (handle c e s r) = s
  /\ (forall call, In call (calls (handle c e s r)) ->
                   bearer call = Some (accessToken s)).
Proof.
  intros Hvalid Hr. pose proof (getAccessToken_cached e s Hvalid) as Hget.
  destruct r as [|code state| | |device_id|uris device_id];
    try discriminate Hr; cbn [handle].
  - unfold token. rewrite Hget. cbn. split; [reflexivity | tauto].
  - unfold me. rewrite Hget.
    destruct (spotifyFetch (api_answer e)); cbn;
      (split; [reflexivity | intros call [<- | []]; reflexivity]).
  - unfold transfer. destruct device_id as [id|]; [|cbn; split; [reflexivity | tauto]].
    destruct (negb (Json.truthy_string (Some id)));
      [cbn; split; [reflexivity | tauto]|].
    rewrite Hget.
    destruct (spotifyFetch (api_answer e)); cbn;
      (split; [reflexivity | intros call [<- | []]; reflexivity]).
  - unfold play. destruct uris as [[|u us]|]; try (cbn; split; [reflexivity | tauto]).
    rewrite Hget.
    destruct (spotifyFetch (api_answer e)); cbn;
      (split; [reflexivity | intros call [<- | []]; reflexivity]).
Qed.

Lemma cached_token_needs_no_refresh_witness :
  after (handle Wire.config (Wire.meets 200) Wire.logged_in
           (PostPlay (Some ["spotify:track:1"%string]) None))
  = Wire.logged_in
  /\ calls (handle Wire.config (Wire.meets 200) Wire.logged_in
              (PostPlay (Some ["spotify:track:1"%string]) None))
     = [CallPlay (Some "token"%string) None ["spotify:track:1"%string]].
Proof.
  split.
  - apply (cached_token_needs_no_refresh Wire.config (Wire.meets 200)
             Wire.logged_in (PostPlay (Some ["spotify:track:1"%string]) None));
      reflexivity.
  - reflexivity.
Defined.

(** With no valid token and no refresh token, every route that needs a
    token fails without sending anything and without changing a global;
    [/token] and [/api/me] answer 401, but a well-formed [/api/transfer] or
    [/api/play] answers 500, the error having no status. *)
Theorem without_tokens_routes_fail (c : Config) (e : Env) (s : State) :
  hasValidAccessToken (now e) s = false ->
  Json.truthy_string (refreshToken s) = false ->
  reply (handle c e s GetToken) = SendJson 401 (ErrorJson "not_authenticated")
  /\ reply (handle c e s GetMe) = SendJson 401 (ErrorJson "not_authenticated")
  /\ (forall device_id,
         Json.truthy_string device_id = true ->
         reply (handle c e s (PutTransfer device_id))
         = SendJson 500 (ErrorJson "transfer_failed"))
  /\ (forall u us device_id,
         reply (handle c e s (PostPlay (Some (u :: us)) device_id))
         = SendJson 500 (ErrorJson "play_failed"))
  /\ (forall r, uses_token r = true ->
                after (handle c e s r) = s /\ calls (handle c e s r) = []).
Proof.
  intros H1 H2. pose proof (getAccessToken_without_tokens e s H1 H2) as Hget.
  repeat split.
  - cbn [handle]. unfold token. rewrite Hget. reflexivity.
  - cbn [handle]. unfold me. rewrite Hget. reflexivity.
  - intros device_id Hd. cbn [handle]. unfold transfer.
    destruct device_id as [id|]; [|discriminate Hd].
    rewrite Hd, Hget. reflexivity.
  - intros u us device_id. cbn [handle]. unfold play. rewrite Hget. reflexivity.
  - destruct r as [|code state| | |device_id|uris device_id];
      try discriminate H; cbn [handle].
    + unfold token. rewrite Hget. reflexivity.
    + unfold me. rewrite Hget. reflexivity.
    + unfold transfer. destruct device_id as [id|]; [|reflexivity].
      destruct (negb (Json.truthy_string (Some id))); [reflexivity|].
      rewrite Hget. reflexivity.
    + unfold play. destruct uris as [[|u us]|]; try reflexivity.
      rewrite Hget. reflexivity.
  - destruct r as [|code state| | |device_id|uris device_id];
      try discriminate H; cbn [handle].
    + unfold token. rewrite Hget. reflexivity.
    + unfold me. rewrite Hget. reflexivity.
    + unfold transfer. destruct device_id as [id|]; [|reflexivity].
      destruct (negb (Json.truthy_string (Some id))); [reflexivity|].
      rewrite Hget. reflexivity.
    + unfold play. destruct uris as [[|u us]|]; try reflexivity.
      rewrite Hget. reflexivity.
Qed.

Lemma without_tokens_routes_fail_witness :
  reply (handle Wire.config (Wire.meets 200) boot GetMe)
  = SendJson 401 (ErrorJson "not_authenticated")
  /\ reply (handle Wire.config (Wire.meets 200) boot
              (PutTransfer (Some "device"%string)))
     = SendJson 500 (ErrorJson "transfer_failed").
Proof.
  destruct (without_tokens_routes_fail Wire.config (Wire.meets 200) boot)
    as (_ & Hme & Htransfer & _); [reflexivity | reflexivity |].
  split; [exact Hme | apply Htransfer; reflexivity].
Defined.

Lemma handle_keeps_refresh_token
    (c : Config) (e : Env) (s : State) (r : Request) :
  Json.truthy_string (refreshToken s) = true ->
  Json.truthy_string (refreshToken (after (handle c e s r))) = true.
Proof.
  intros H.
  assert (Hget : Json.truthy_string
                   (refreshToken (snd (fst (getAccessToken e s)))) = true).
  { unfold getAccessToken. destruct (hasValidAccessToken (now e) s); [exact H|].
    destruct (negb (Json.truthy_string (refreshToken s))); [exact H|].
    destruct (token_result (token_answer e)) as [[d|]|]; exact H. }
  destruct r as [|code state| | |device_id|uris device_id]; cbn [handle].
  - unfold login. destruct (_ || _); exact H.
  - unfold callback. destruct code as [code|]; [|exact H].
    destruct (_ || _); [exact H|].
    destruct (token_result (token_answer e)) as [[d|]|]; try exact H.
    cbn. unfold or_old.
    destruct (Json.truthy_string (refresh_token d)) eqn:E; [exact E | exact H].
  - unfold token. destruct (getAccessToken e s) as [[[t|] s'] sent]; exact Hget.
  - unfold me. destruct (getAccessToken e s) as [[[t|] s'] sent];
      [destruct (spotifyFetch (api_answer e))|]; exact Hget.
  - unfold transfer. destruct device_id as [id|]; [|exact H].
    destruct (negb (Json.truthy_string (Some id))); [exact H|].
    destruct (getAccessToken e s) as [[[t|] s'] sent];
      [destruct (spotifyFetch (api_answer e))|]; exact Hget.
  - unfold play. destruct uris as [[|u us]|]; try exact H.
    destruct (getAccessToken e s) as [[[t|] s'] sent];
      [destruct (spotifyFetch (api_answer e))|]; exact Hget.
Qed.

(** No route logs the server out: once the refresh token is set, it stays
    set over every run of requests, whatever the token endpoint and the Web
    API answer (a later login replaces it only by another refresh token). *)
Theorem refresh_token_is_kept
    (c : Config) (requests : list (Env * Request)) (s : State) :
  Json.truthy_string (refreshToken s) = true ->
  Json.truthy_string (refreshToken (serve c requests s)) = true.
Proof.
  unfold serve. revert s.
  induction requests as [|[e r] rest IH]; intros s H; [exact H|].
  cbn [fold_left fst snd]. apply IH. apply handle_keeps_refresh_token. exact H.
Qed.

Lemma refresh_token_is_kept_witness :
  Json.truthy_string
    (refreshToken
       (serve Wire.config
          [(Wire.meets 401, GetToken);
           (Wire.meets 500, GetCallback (Some "code"%string) (Some "abc"%string));
           (Wire.meets 200, PostPlay None None)]
          Wire.logged_in)) = true.
Proof.
  apply (refresh_token_is_kept Wire.config). reflexivity.
Defined.

Lemma handle_before_login
    (c : Config) (e : Env) (s : State) (r : Request) :
  accessToken s = None -> refreshToken s = None -> oauthState s = None ->
  is_login r = false ->
  after (handle c e s r) = s /\ calls (handle c e s r) = [].
Proof.
  intros Ha Hr Ho Hl.
  assert (Hget : getAccessToken e s = (None, s, [])).
  { apply getAccessToken_without_tokens.
    - unfold hasValidAccessToken. rewrite Ha. reflexivity.
    - rewrite Hr. reflexivity. }
  destruct r as [|code state| | |device_id|uris device_id];
    try discriminate Hl; cbn [handle].
  - unfold callback. destruct code as [code|]; [|split; reflexivity].
    rewrite Ho. unfold same_state. destruct state; rewrite orb_true_r;
      split; reflexivity.
  - unfold token. rewrite Hget. split; reflexivity.
  - unfold me. rewrite Hget. split; reflexivity.
  - unfold transfer. destruct device_id as [id|]; [|split; reflexivity].
    destruct (negb (Json.truthy_string (Some id))); [split; reflexivity|].
    rewrite Hget. split; reflexivity.
  - unfold play. destruct uris as [[|u us]|]; try (split; reflexivity).
    rewrite Hget. split; reflexivity.
Qed.

Lemma run_before_login (c : Config) (requests : list (Env * Request)) :
  forallb (fun er => negb (is_login (snd er))) requests = true ->
  forall s : State,
    accessToken s = None -> refreshToken s = None -> oauthState s = None ->
    serve c requests s = s /\ traffic c requests s = [].
Proof.
  unfold serve.
  induction requests as [|[e r] rest IH]; intros H s Ha Hr Ho;
    [split; reflexivity|].
  cbn [forallb snd] in H. apply andb_true_iff in H. destruct H as [Hl Hrest].
  apply negb_true_iff in Hl. cbn [fold_left traffic fst snd].
  destruct (handle_before_login c e s r Ha Hr Ho Hl) as [-> ->].
  exact (IH Hrest s Ha Hr Ho).
Qed.

(** Nothing is obtained without [/login]: over every run of requests that
    has no [/login] in it, the server stays as it booted and sends no
    request to Spotify, neither to the token endpoint nor to the Web API.
    After such a run every callback is refused, again without a request
    being sent, and [/token] answers 401. *)
Theorem no_tokens_without_login
    (c : Config) (requests : list (Env * Request)) :
  forallb (fun er => negb (is_login (snd er))) requests = true ->
  serve c requests boot = boot
  /\ traffic c requests boot = []
  /\ (forall (e : Env) (code state : option string),
         reply (handle c e (serve c requests boot) (GetCallback code state))
         = SendText 400 "Invalid OAuth state. Try logging in again."
         /\ calls (handle c e (serve c requests boot) (GetCallback code state))
            = [])
  /\ (forall e : Env,
         reply (handle c e (serve c requests boot) GetToken)
         = SendJson 401 (ErrorJson "not_authenticated")
         /\ calls (handle c e (serve c requests boot) GetToken) = []).
Proof.
  intros H.
  destruct (run_before_login c requests H boot eq_refl eq_refl eq_refl)
    as [Hboot Htraffic].
  split; [exact Hboot | split; [exact Htraffic | split]].
  - intros e code state. rewrite Hboot. cbn [handle]. unfold callback.
    destruct code as [code|]; [|split; reflexivity].
    cbn [oauthState boot]. unfold same_state.
    destruct state; rewrite orb_true_r; split; reflexivity.
  - intros e. rewrite Hboot. split; reflexivity.
Qed.

Lemma no_tokens_without_login_witness :
  serve Wire.config
    [(Wire.meets 200, GetCallback (Some "code"%string) (Some "abc"%string));
     (Wire.meets 200, GetToken);
     (Wire.meets 200, PostPlay (Some ["spotify:track:1"%string]) None)]
    boot = boot
  /\ traffic Wire.config
       [(Wire.meets 200, GetCallback (Some "code"%string) (Some "abc"%string));
        (Wire.meets 200, GetToken);
        (Wire.meets 200, PostPlay (Some ["spotify:track:1"%string]) None)]
       boot = [].
Proof.
  destruct (no_tokens_without_login Wire.config
              [(Wire.meets 200,
                GetCallback (Some "code"%string) (Some "abc"%string));
               (Wire.meets 200, GetToken);
               (Wire.meets 200, PostPlay (Some ["spotify:track:1"%string]) None)])
    as (Hboot & Htraffic & _); [reflexivity|].
  split; [exact Hboot | exact Htraffic].
Defined.

(** [/callback] exchanges the code only when the code is not empty and the
    [state] parameter is the one the last [/login] issued; anything else is
    refused with 400 before any request is sent.  Accepting a state does not
    clear it: it stays the issued state afterwards. *)
Theorem callback_needs_issued_state
    (e : Env) (s : State) (code state : option string) :
  (reply (callback e s code state)
   = SendText 400 "Invalid OAuth state. Try logging in again."
   /\ after (callback e s code state) = s
   /\ calls (callback e s code state) = [])
  \/ (exists issued c,
         oauthState s = Some issued /\ state = Some issued
         /\ code = Some c /\ c <> ""%string
         /\ calls (callback e s code state) = [CallExchange c]
         /\ oauthState (after (callback e s code state)) = Some issued).
Proof.
  unfold callback. destruct code as [c|]; [|left; repeat split; reflexivity].
  destruct (Json.truthy_string (Some c)) eqn:Hc; cbn [negb orb];
    [|left; repeat split; reflexivity].
  destruct (same_state state (oauthState s)) eqn:Hs; cbn [negb];
    [|left; repeat split; reflexivity].
  right. unfold same_state in Hs.
  destruct state as [st|]; [|discriminate Hs].
  destruct (oauthState s) as [issued|] eqn:Ho; [|discriminate Hs].
  apply String.eqb_eq in Hs. subst st.
  exists issued, c. repeat split.
  - intros ->. discriminate Hc.
  - destruct (token_result (token_answer e)) as [[d|]|]; reflexivity.
  - destruct (token_result (token_answer e)) as [[d|]|]; cbn;
      first [exact Ho | reflexivity].
Qed.

End Tokens.

(** ** The player page *)

Section Views.

Import Ui.

Lemma has_class_add (token other : string) (classes : list string) :
  has_class other (add_class token classes)
  = has_class other classes || String.eqb other token.
Proof.
  unfold add_class, has_class.
  destruct (existsb (String.eqb token) classes) eqn:E.
  - destruct (String.eqb_spec other token) as [-> | Hne].
    + rewrite E. reflexivity.
    + rewrite orb_false_r. reflexivity.
  - rewrite existsb_app. cbn. rewrite orb_false_r. reflexivity.
Qed.

Lemma has_class_remove (token other : string) (classes : list string) :
  has_class other (remove_class token classes)
  = has_class other classes && negb (String.eqb other token).
Proof.
  unfold remove_class, has_class.
  induction classes as [|c rest IH]; [reflexivity|].
  cbn [filter existsb].
  destruct (String.eqb_spec c token) as [-> | Hc]; cbn [negb].
  - rewrite IH. destruct (String.eqb_spec other token) as [-> | Ho].
    + cbn. rewrite !andb_false_r. reflexivity.
    + cbn. rewrite !andb_true_r. reflexivity.
  - cbn [existsb]. rewrite IH.
    destruct (String.eqb_spec other c) as [-> | Hoc]; [|reflexivity].
    destruct (String.eqb_spec c token) as [-> | _]; [contradiction|].
    reflexivity.
Qed.

Lemma add_class_twice (token : string) (classes : list string) :
  add_class token (add_class token classes) = add_class token classes.
Proof.
  unfold add_class at 1.
  change (existsb (String.eqb token) (add_class token classes))
    with (has_class token (add_class token classes)).
  rewrite has_class_add, String.eqb_refl, orb_true_r. reflexivity.
Qed.

Lemma remove_class_twice (token : string) (classes : list string) :
  remove_class token (remove_class token classes) = remove_class token classes.
Proof.
  unfold remove_class. induction classes as [|c rest IH]; [reflexivity|].
  cbn [filter]. destruct (negb (String.eqb c token)) eqn:E; [|exact IH].
  cbn [filter]. rewrite E, IH. reflexivity.
Qed.

(** [showLogin] and [showApp] leave exactly one of the two sections hidden,
    whatever the class lists were; they touch no other class and not the
    status line, and calling one of them twice is calling it once. *)
Theorem one_section_is_hidden (v : View) :
  (has_class "hidden" (login_classes (showLogin v)) = false
   /\ has_class "hidden" (app_classes (showLogin v)) = true)
  /\ (has_class "hidden" (login_classes (showApp v)) = true
      /\ has_class "hidden" (app_classes (showApp v)) = false)
  /\ (forall other, other <> "hidden"%string ->
        has_class other (login_classes (showLogin v))
        = has_class other (login_classes v)
        /\ has_class other (app_classes (showLogin v))
           = has_class other (app_classes v)
        /\ has_class other (login_classes (showApp v))
           = has_class other (login_classes v)
        /\ has_class other (app_classes (showApp v))
           = has_class other (app_classes v))
  /\ showLogin (showLogin v) = showLogin v
  /\ showApp (showApp v) = showApp v
  /\ (status_message (showLogin v) = status_message v
      /\ status_tone (showLogin v) = status_tone v)
  /\ (status_message (showApp v) = status_message v
      /\ status_tone (showApp v) = status_tone v).
Proof.
  unfold showLogin, showApp. cbn [login_classes app_classes status_message status_tone].
  rewrite !add_class_twice, !remove_class_twice.
  repeat split;
    rewrite ?has_class_add, ?has_class_remove, ?String.eqb_refl,
            ?orb_true_r, ?andb_false_r; try reflexivity;
    match goal with
    | H : ?o <> _ |- _ =>
        destruct (String.eqb_spec o "hidden") as [-> | _]; [contradiction|];
        rewrite ?orb_false_r, ?andb_true_r; reflexivity
    end.
Qed.

End Views.

Section Handlers.

Import Ui.

Lemma ok_excludes (status : nat) :
  Json.ok status = true ->
  (status =? 401)%nat = false /\ (status =? 403)%nat = false
  /\ (status =? 404)%nat = false.
Proof.
  unfold Json.ok. intros H. apply andb_true_iff in H. destruct H as [_ H].
  apply Nat.leb_le in H.
  repeat split; apply Nat.eqb_neq; lia.
Qed.

(** What [apiSend] throws carries the status of the response exactly when
    a response arrived with a status outside 200 to 299 and a body that
    could be read; it returns when the status is in that range and is 204
    or the body is JSON. *)
Lemma apiSend_cases (f : Fetched) :
  match apiSend f with
  | inl _ =>
      exists status body,
        f = Answered status body /\ Json.ok status = true
        /\ (status = 204%nat \/ exists j, body = Readable (Some j))
  | inr (Some status) =>
      exists json, f = Answered status (Readable json)
                   /\ Json.ok status = false
  | inr None =>
      f = Unreachable
      \/ (exists status, f = Answered status Unreadable
                         /\ (Json.ok status = true -> status <> 204%nat))
      \/ (exists status, f = Answered status (Readable None)
                         /\ Json.ok status = true /\ status <> 204%nat)
  end.
Proof.
  destruct f as [|status body]; cbn; [left; reflexivity|].
  destruct (Json.ok status) eqn:Hok; cbn.
  - destruct (Nat.eqb_spec status 204) as [-> | Hne].
    + exists 204%nat, body. repeat split. left. reflexivity.
    + destruct body as [|[j|]].
      * right. left. exists status. split; [reflexivity | intros _; exact Hne].
      * exists status, (Readable (Some j)). repeat split; [exact Hok|].
        right. exists j. reflexivity.
      * right. right. exists status. repeat split; assumption.
  - destruct body as [|json].
    + right. left. exists status. split; [reflexivity|].
      intros H. rewrite Hok in H. discriminate H.
    + exists json. split; [reflexivity | exact Hok].
Qed.

Lemma showLogin_reveals (v : View) :
  has_class "hidden" (login_classes (showLogin v)) = false
  /\ has_class "hidden" (app_classes (showLogin v)) = true.
Proof.
  unfold showLogin. cbn [login_classes app_classes].
  rewrite has_class_remove, has_class_add, String.eqb_refl, andb_false_r,
    orb_true_r.
  split; reflexivity.
Qed.

(** What [playTrack] leaves, by what [apiSend] did. *)
Lemma playTrack_cases (uri : string) (f : Fetched) (st : AppState) (v : View) :
  let v0 :=
    if Json.truthy_string (deviceId st) then v
    else setStatus (Say "Web player not ready; trying active device") "warn" v in
  app (playTrack uri f st v) = st
  /\ match apiSend f with
     | inl _ => view (playTrack uri f st v) = setStatus (Say "Playing") "ok" v0
     | inr status =>
         if is_status 401 status then
           view (playTrack uri f st v)
           = setStatus (Say "Please connect to Spotify") "warn" (showLogin v0)
         else
           status_message (view (playTrack uri f st v)) <> Say "Playing"
           /\ status_message (view (playTrack uri f st v))
              <> Say "Please connect to Spotify"
           /\ login_classes (view (playTrack uri f st v)) = login_classes v0
           /\ app_classes (view (playTrack uri f st v)) = app_classes v0
     end.
Proof.
  intros v0. unfold playTrack. fold v0.
  destruct (apiSend f) as [j|status]; [split; reflexivity|].
  destruct (is_status 401 status); [split; reflexivity|].
  destruct (is_status 404 status); [|destruct (is_status 403 status)];
    cbn; repeat split; discriminate.
Qed.

Lemma ready_or_not_classes (st : AppState) (v : View) :
  login_classes
    (if Json.truthy_string (deviceId st) then v
     else setStatus (Say "Web player not ready; trying active device") "warn" v)
  = login_classes v
  /\ app_classes
       (if Json.truthy_string (deviceId st) then v
        else setStatus (Say "Web player not ready; trying active device")
               "warn" v)
     = app_classes v.
Proof. destruct (Json.truthy_string (deviceId st)); split; reflexivity. Qed.

(** The response on which [apiSend] throws an error of status 401. *)
Lemma apiSend_401 (f : Fetched) :
  (exists status, apiSend f = inr status /\ is_status 401 status = true)
  <-> exists json, f = Answered 401 (Readable json).
Proof.
  pose proof (apiSend_cases f) as Hcases. split.
  - intros (status & Hs & H401). rewrite Hs in Hcases.
    destruct status as [n|]; [|discriminate H401].
    cbn in H401. apply Nat.eqb_eq in H401. subst n.
    destruct Hcases as (json & -> & _). exists json. reflexivity.
  - intros (json & ->). exists (Some 401%nat). split; reflexivity.
Qed.

(** [playTrack] ends with ["Playing"] exactly when the request got a
    response with a status from 200 to 299 that is 204 or has a JSON body.
    It asks to connect, with ["Please connect to Spotify"], exactly when a
    response of status 401 arrived whose body could be read, and it is
    then that the login section is revealed and the application hidden.
    In every other case, a 401 whose body cannot be read included, the two
    sections are left as they were.  The [state] object is never
    changed. *)
Theorem playTrack_outcomes
    (uri : string) (f : Fetched) (st : AppState) (v : View) :
  (status_message (view (playTrack uri f st v)) = Say "Playing"
   <-> exists status body,
         f = Answered status body /\ Json.ok status = true
         /\ (status = 204%nat \/ exists j, body = Readable (Some j)))
  /\ (status_message (view (playTrack uri f st v))
      = Say "Please connect to Spotify"
      <-> exists json, f = Answered 401 (Readable json))
  /\ ((exists json, f = Answered 401 (Readable json)) ->
      has_class "hidden" (login_classes (view (playTrack uri f st v))) = false
      /\ has_class "hidden" (app_classes (view (playTrack uri f st v))) = true)
  /\ ((forall json, f <> Answered 401 (Readable json)) ->
      login_classes (view (playTrack uri f st v)) = login_classes v
      /\ app_classes (view (playTrack uri f st v)) = app_classes v)
  /\ app (playTrack uri f st v) = st.
Proof.
  pose proof (apiSend_cases f) as Hcases.
  pose proof (apiSend_401 f) as H401.
  pose proof (ready_or_not_classes st v) as [Hl Ha].
  destruct (playTrack_cases uri f st v) as [Happ Hview].
  destruct (apiSend f) as [j|status] eqn:Hsend.
  - assert (Hno : ~ exists json, f = Answered 401 (Readable json)).
    { intros Hex. apply H401 in Hex. destruct Hex as (s' & Hs' & _).
      discriminate Hs'. }
    rewrite Hview. cbn [status_message login_classes app_classes setStatus].
    split; [split; [intros _; exact Hcases | reflexivity]|].
    split; [split; [discriminate | intros Hex; contradiction]|].
    split; [intros Hex; contradiction|].
    split; [intros _; split; assumption | exact Happ].
  - assert (Hbad : ~ exists status' body,
                       f = Answered status' body /\ Json.ok status' = true
                       /\ (status' = 204%nat
                           \/ exists j, body = Readable (Some j))).
    { intros (s' & body & -> & Hok & Hbody). cbn in Hsend.
      rewrite Hok in Hsend. cbn in Hsend.
      destruct Hbody as [-> | (j & ->)]; [discriminate Hsend|].
      destruct (s' =? 204)%nat; discriminate Hsend. }
    destruct (is_status 401 status) eqn:His.
    + assert (Hyes : exists json, f = Answered 401 (Readable json))
        by (apply H401; exists status; split; [reflexivity | exact His]).
      rewrite Hview. cbn [status_message login_classes app_classes setStatus].
      split; [split; [discriminate | intros Hex; contradiction]|].
      split; [split; [intros _; exact Hyes | reflexivity]|].
      split; [intros _; apply showLogin_reveals|].
      split; [|exact Happ].
      intros Hnone. destruct Hyes as (json & Hf). exfalso.
      exact (Hnone json Hf).
    + assert (Hno : ~ exists json, f = Answered 401 (Readable json)).
      { intros Hex. apply H401 in Hex. destruct Hex as (s' & Hs' & Ht).
        injection Hs' as <-. rewrite His in Ht. discriminate Ht. }
      destruct Hview as (Hn1 & Hn2 & Hlc & Hac).
      split; [split; [intros Hp; contradiction | intros Hex; contradiction]|].
      split; [split; [intros Hp; contradiction | intros Hex; contradiction]|].
      split; [intros Hex; contradiction|].
      split; [|exact Happ].
      intros _. rewrite Hlc, Hac. split; assumption.
Qed.

Lemma playTrack_outcomes_witness :
  status_message
    (view (playTrack "spotify:track:1" (Answered 401 (Readable None))
             Wire.ready Wire.blank))
  = Say "Please connect to Spotify"
  /\ has_class "hidden"
       (login_classes
          (view (playTrack "spotify:track:1" (Answered 401 (Readable None))
                   Wire.ready Wire.blank))) = false
  /\ login_classes
       (view (playTrack "spotify:track:1" (Answered 401 Unreadable)
                Wire.ready Wire.blank))
     = login_classes Wire.blank.
Proof.
  destruct (playTrack_outcomes "spotify:track:1" (Answered 401 (Readable None))
              Wire.ready Wire.blank) as (_ & Hmsg & Hshow & _).
  destruct (playTrack_outcomes "spotify:track:1" (Answered 401 Unreadable)
              Wire.ready Wire.blank) as (_ & _ & _ & Hkeep & _).
  split; [apply Hmsg; exists None; reflexivity|].
  split; [apply Hshow; exists None; reflexivity|].
  apply Hkeep. intros json. discriminate.
Defined.

(** [transferPlayback] sends nothing while there is no device; with a
    device it sends one request for that device.  It asks to connect, with
    ["Please connect to Spotify"], exactly when a response of status 401
    arrived whose body could be read, and it is then that the login section
    is revealed and the application hidden; in every other case the two
    sections are left as they were. *)
Theorem transferPlayback_outcomes (f : Fetched) (st : AppState) (v : View) :
  (Json.truthy_string (deviceId st) = false ->
   transferPlayback f st v
   = mkDone st (setStatus (Say "Player not ready yet") "warn" v) [] false)
  /\ (Json.truthy_string (deviceId st) = true ->
      sent (transferPlayback f st v) = [SentTransfer (deviceId st)]
      /\ (status_message (view (transferPlayback f st v))
          = Say "Please connect to Spotify"
          <-> exists json, f = Answered 401 (Readable json))
      /\ ((exists json, f = Answered 401 (Readable json)) ->
          has_class "hidden" (login_classes (view (transferPlayback f st v)))
          = false
          /\ has_class "hidden" (app_classes (view (transferPlayback f st v)))
             = true)
      /\ ((forall json, f <> Answered 401 (Readable json)) ->
          login_classes (view (transferPlayback f st v)) = login_classes v
          /\ app_classes (view (transferPlayback f st v)) = app_classes v)
      /\ app (transferPlayback f st v) = st).
Proof.
  pose proof (apiSend_401 f) as H401. unfold transferPlayback.
  split; intros Hd; rewrite Hd; cbn [negb]; [reflexivity|].
  destruct (apiSend f) as [j|status] eqn:Hsend.
  - assert (Hno : ~ exists json, f = Answered 401 (Readable json)).
    { intros Hex. apply H401 in Hex. destruct Hex as (s' & Hs' & _).
      discriminate Hs'. }
    cbn [sent view app status_message login_classes app_classes setStatus].
    split; [reflexivity|].
    split; [split; [discriminate | intros Hex; contradiction]|].
    split; [intros Hex; contradiction|].
    split; [intros _; split; reflexivity | reflexivity].
  - destruct (is_status 401 status) eqn:His.
    + assert (Hyes : exists json, f = Answered 401 (Readable json))
        by (apply H401; exists status; split; [reflexivity | exact His]).
      cbn [sent view app status_message login_classes app_classes setStatus].
      split; [reflexivity|].
      split; [split; [intros _; exact Hyes | reflexivity]|].
      split; [intros _; apply showLogin_reveals|].
      split; [|reflexivity].
      intros Hnone. destruct Hyes as (json & Hf). exfalso.
      exact (Hnone json Hf).
    + assert (Hno : ~ exists json, f = Answered 401 (Readable json)).
      { intros Hex. apply H401 in Hex. destruct Hex as (s' & Hs' & Ht).
        injection Hs' as <-. rewrite His in Ht. discriminate Ht. }
      cbn [sent view app status_message login_classes app_classes setStatus].
      split; [reflexivity|].
      split; [split; [discriminate | intros Hex; contradiction]|].
      split; [intros Hex; contradiction|].
      split; [intros _; split; reflexivity | reflexivity].
Qed.

Lemma transferPlayback_outcomes_witness :
  sent (transferPlayback (Answered 401 (Readable None)) Wire.ready Wire.blank)
  = [SentTransfer (Some "device"%string)]
  /\ status_message (view (transferPlayback (Answered 401 (Readable None))
                             Wire.ready Wire.blank))
     = Say "Please connect to Spotify"
  /\ has_class "hidden"
       (login_classes (view (transferPlayback (Answered 401 (Readable None))
                               Wire.ready Wire.blank))) = false
  /\ login_classes (view (transferPlayback (Answered 401 Unreadable)
                            Wire.ready Wire.blank))
     = login_classes Wire.blank.
Proof.
  destruct (proj2 (transferPlayback_outcomes (Answered 401 (Readable None))
                     Wire.ready Wire.blank) eq_refl)
    as (Hsent & Hmsg & Hshow & _).
  destruct (proj2 (transferPlayback_outcomes (Answered 401 Unreadable)
                     Wire.ready Wire.blank) eq_refl)
    as (_ & _ & _ & Hkeep & _).
  split; [exact Hsent|].
  split; [apply Hmsg; exists None; reflexivity|].
  split; [apply Hshow; exists None; reflexivity|].
  apply Hkeep. intros json. discriminate.
Defined.

End Handlers.

(** ** The page against the server *)

Section EndToEnd.

Import Ui.

Lemma playTrack_asks_login (uri : string) (status : nat) (json : option Json.t)
    (st : AppState) (v : View) :
  status_message (view (playTrack uri (Answered status (Readable json)) st v))
  = Say "Please connect to Spotify"
  <-> status = 401%nat.
Proof.
  unfold playTrack, apiSend.
  destruct (Json.ok status) eqn:Hok; cbn [negb].
  - destruct (ok_excludes status Hok) as (H401 & _ & _).
    apply Nat.eqb_neq in H401.
    destruct (status =? 204)%nat; [|destruct json];
      cbn; (split; [discriminate | intros ->; contradiction]) ||
      (cbn [is_status]; split; [discriminate | intros ->; contradiction]).
  - cbn [is_status]. destruct (Nat.eqb_spec status 401) as [-> | H401].
    + cbn. split; reflexivity.
    + destruct (status =? 404)%nat; [|destruct (status =? 403)%nat];
        cbn; (split; [discriminate | intros ->; contradiction]).
Qed.

Lemma transferPlayback_asks_login (status : nat) (json : option Json.t)
    (st : AppState) (v : View) :
  Json.truthy_string (deviceId st) = true ->
  status_message
    (view (transferPlayback (Answered status (Readable json)) st v))
  = Say "Please connect to Spotify"
  <-> status = 401%nat.
Proof.
  intros Hd. unfold transferPlayback, apiSend. rewrite Hd. cbn [negb].
  destruct (Json.ok status) eqn:Hok; cbn [negb].
  - destruct (ok_excludes status Hok) as (H401 & _ & _).
    apply Nat.eqb_neq in H401.
    destruct (status =? 204)%nat; [|destruct json];
      cbn; (split; [discriminate | intros ->; contradiction]) ||
      (cbn [is_status]; split; [discriminate | intros ->; contradiction]).
  - cbn [is_status]. destruct (Nat.eqb_spec status 401) as [-> | H401].
    + cbn. split; reflexivity.
    + cbn. split; [discriminate | intros ->; contradiction].
Qed.

Lemma failed_call_status (a : Server.ApiAnswer) (status : option nat) :
  Server.spotifyFetch a = inr status ->
  Server.status_or_500 status = 401%nat
  <-> exists text parsed, a = Server.ApiResponse 401 text parsed.
Proof.
  unfold Server.spotifyFetch. destruct a as [|n text parsed].
  - intros H. injection H as <-. cbn. split; [discriminate|].
    intros (t & p & Heq). discriminate Heq.
  - destruct (Json.ok n) eqn:Hok; cbn [negb].
    + destruct (String.eqb text ""); [|destruct parsed]; discriminate.
    + intros H. injection H as <-. split.
      * intros H. unfold Server.status_or_500 in H.
        destruct n as [|n']; [discriminate H|]. rewrite H.
        exists text, parsed. reflexivity.
      * intros (t & p & Heq). injection Heq as -> _ _. reflexivity.
Qed.

(** Against the server, [playTrack] and [transferPlayback] ask the user to
    connect exactly when the server had a token to send and the Web API
    answered 401.  A server that has no token answers 500, so the page then
    reports a failure and the login section is not revealed. *)
Theorem login_prompt_needs_a_401_from_spotify
    (c : Server.Config) (e : Server.Env) (srv : Server.State)
    (uri : string) (st : AppState) (v : View) :
  (status_message (view (Wire.playTrack c e srv uri st v))
   = Say "Please connect to Spotify"
   <-> fst (fst (Server.getAccessToken e srv)) <> None
       /\ exists text parsed,
            Server.api_answer e = Server.ApiResponse 401 text parsed)
  /\ (Json.truthy_string (deviceId st) = true ->
      (status_message (view (Wire.transferPlayback c e srv st v))
       = Say "Please connect to Spotify"
       <-> fst (fst (Server.getAccessToken e srv)) <> None
           /\ exists text parsed,
                Server.api_answer e = Server.ApiResponse 401 text parsed)).
Proof.
  split.
  - unfold Wire.playTrack, Wire.ask, Wire.play_request. cbn [Wire.request Server.handle].
    unfold Server.play.
    destruct (Server.getAccessToken e srv) as [[[t|] s'] sent0]; cbn [fst].
    + destruct (Server.spotifyFetch (Server.api_answer e)) as [val|status] eqn:Hf;
        cbn [Server.reply Wire.deliver]; rewrite playTrack_asks_login.
      * split; [discriminate|]. intros (_ & text & parsed & Ha).
        rewrite Ha in Hf. discriminate Hf.
      * rewrite (failed_call_status _ _ Hf). split.
        -- intros H. split; [discriminate | exact H].
        -- intros (_ & H). exact H.
    + cbn [Server.reply Wire.deliver]. rewrite playTrack_asks_login.
      split; [discriminate | intros (H & _); contradiction].
  - intros Hd.
    unfold Wire.transferPlayback, Wire.ask. cbn [Wire.request Server.handle].
    unfold Server.transfer.
    destruct (deviceId st) as [id|] eqn:Hid; [|discriminate Hd].
    rewrite Hd. cbn [negb].
    destruct (Server.getAccessToken e srv) as [[[t|] s'] sent0]; cbn [fst].
    + destruct (Server.spotifyFetch (Server.api_answer e)) as [val|status] eqn:Hf;
        cbn [Server.reply Wire.deliver];
        rewrite transferPlayback_asks_login
          by (rewrite Hid; exact Hd).
      * split; [discriminate|]. intros (_ & text & parsed & Ha).
        rewrite Ha in Hf. discriminate Hf.
      * rewrite (failed_call_status _ _ Hf). split.
        -- intros H. split; [discriminate | exact H].
        -- intros (_ & H). exact H.
    + cbn [Server.reply Wire.deliver].
      rewrite transferPlayback_asks_login by (rewrite Hid; exact Hd).
      split; [discriminate | intros (H & _); contradiction].
Qed.

Lemma login_prompt_needs_a_401_from_spotify_witness :
  status_message
    (view (Wire.transferPlayback Wire.config (Wire.meets 401) Wire.logged_in
             Wire.ready Wire.blank))
  = Say "Please connect to Spotify"
  /\ status_message
       (view (Wire.transferPlayback Wire.config (Wire.meets 401) Server.boot
                Wire.ready Wire.blank))
     = Say "Transfer failed. Try again.".
Proof.
  split; [|reflexivity].
  apply (proj2 (login_prompt_needs_a_401_from_spotify Wire.config
                  (Wire.meets 401) Wire.logged_in "" Wire.ready Wire.blank)
           eq_refl).
  split; [discriminate|]. exists ""%string, None. reflexivity.
Defined.

Lemma checkSession_cases (f : Fetched) (st : AppState) (v : View) :
  (exists profile,
      apiGet f = inl profile /\ profile <> Json.JNull
      /\ Json.printable (shown_name profile) = true
      /\ checkSession f st v
         = mkDone (mkApp (deviceId st) (has_player st) true (sdkReady st))
                  (setStatus (ConnectedAs (shown_name profile)) "ok"
                     (showApp v))
                  [SentMe] (sdkReady st))
  \/ ((apiGet f = inl Json.JNull
       \/ (exists profile, apiGet f = inl profile
                           /\ Json.printable (shown_name profile) = false)
       \/ exists err, apiGet f = inr err)
      /\ exists w, checkSession f st v = not_connected st w).
Proof.
  unfold checkSession. destruct (apiGet f) as [profile|err].
  - destruct (Json.get profile "display_name") as [name|[]] eqn:Hget.
    + destruct (Json.printable (shown_name profile)) eqn:Hprint.
      * left. exists profile. split; [reflexivity|].
        split; [intros ->; discriminate Hget|].
        split; [exact Hprint | reflexivity].
      * right. split; [|eexists; reflexivity].
        right. left. exists profile. split; [reflexivity | exact Hprint].
    + right. split; [|eexists; reflexivity].
      left. destruct profile; try discriminate Hget. reflexivity.
  - right. split; [|eexists; reflexivity].
    right. right. exists err. reflexivity.
Qed.

Lemma encode_null (value : Server.ApiValue) :
  Wire.encode (Server.ValueJson value) = Json.JNull
  <-> value = Server.VNull \/ value = Server.VParsed Json.JNull
      \/ exists f, value = Server.VParsed (Json.JNum f)
                   /\ Described.finite f = false.
Proof.
  destruct value as [|j|s]; cbn [Wire.encode].
  - split; [intros _; left; reflexivity | reflexivity].
  - destruct j as [|b|f|s|items|members]; cbn [Wire.reserialise].
    + split; [intros _; right; left; reflexivity | reflexivity].
    + split; [discriminate | intros [H | [H | (f & H & _)]]; discriminate H].
    + destruct (Described.finite f) eqn:Hfin.
      * split; [discriminate|].
        intros [H | [H | (g & H & Hg)]]; try discriminate H.
        injection H as <-. rewrite Hfin in Hg. discriminate Hg.
      * split; [|reflexivity].
        intros _. right. right. exists f. split; [reflexivity | exact Hfin].
    + split; [discriminate | intros [H | [H | (f & H & _)]]; discriminate H].
    + split; [discriminate | intros [H | [H | (f & H & _)]]; discriminate H].
    + split; [discriminate | intros [H | [H | (f & H & _)]]; discriminate H].
  - split; [discriminate | intros [H | [H | (f & H & _)]]; discriminate H].
Qed.

(** Against the server, [checkSession] ends authenticated, with the
    application shown, exactly when the server had a token to send, the Web
    API answered [/v1/me] with a status from 200 to 299, what the server
    passes on does not reach the page as [null], and the name to greet
    ([display_name], or [id] when that is falsy) can be converted to a
    text; otherwise the login section is shown with ["Not connected"].  It
    is always one or the other.  The profile reaches the page as [null]
    exactly when the body of the Web API is empty, is [null], or is a
    number that is not finite, which [res.json] writes as [null]. *)
Theorem checkSession_reflects_the_server
    (c : Server.Config) (e : Server.Env) (srv : Server.State)
    (st : AppState) (v : View) :
  (authenticated (app (Wire.checkSession c e srv st v)) = true
   <-> fst (fst (Server.getAccessToken e srv)) <> None
       /\ exists value,
            Server.spotifyFetch (Server.api_answer e) = inl value
            /\ value <> Server.VNull
            /\ value <> Server.VParsed Json.JNull
            /\ (forall f, value = Server.VParsed (Json.JNum f) ->
                          Described.finite f = true)
            /\ Json.printable
                 (shown_name (Wire.encode (Server.ValueJson value))) = true)
  /\ (authenticated (app (Wire.checkSession c e srv st v)) = true ->
      has_class "hidden" (app_classes (view (Wire.checkSession c e srv st v)))
      = false
      /\ status_tone (view (Wire.checkSession c e srv st v)) = "ok"%string)
  /\ (authenticated (app (Wire.checkSession c e srv st v)) = false ->
      has_class "hidden" (login_classes (view (Wire.checkSession c e srv st v)))
      = false
      /\ status_message (view (Wire.checkSession c e srv st v))
         = Say "Not connected").
Proof.
  assert (Hshow : forall w, has_class "hidden" (app_classes (showApp w)) = false)
    by (intros w; unfold showApp; cbn [app_classes];
        rewrite has_class_remove, String.eqb_refl, andb_false_r; reflexivity).
  assert (Hlogin : forall w,
             has_class "hidden" (login_classes (showLogin w)) = false)
    by (intros w; unfold showLogin; cbn [login_classes];
        rewrite has_class_remove, String.eqb_refl, andb_false_r; reflexivity).
  assert (Hget : apiGet (Wire.ask c e srv SentMe)
                 = match Server.getAccessToken e srv with
                   | (Some _, _, _) =>
                       match Server.spotifyFetch (Server.api_answer e) with
                       | inl value => inl (Wire.encode (Server.ValueJson value))
                       | inr _ => inr (Some 401%nat)
                       end
                   | (None, _, _) => inr (Some 401%nat)
                   end).
  { unfold Wire.ask. cbn [Wire.request Server.handle]. unfold Server.me.
    destruct (Server.getAccessToken e srv) as [[[t|] s'] sent0];
      [destruct (Server.spotifyFetch (Server.api_answer e))|]; reflexivity. }
  unfold Wire.checkSession.
  destruct (checkSession_cases (Wire.ask c e srv SentMe) st v)
    as [(profile & Hp & Hne & Hprint & ->) | (Hfail & w & ->)].
  - unfold setStatus.
    cbn [app view authenticated app_classes login_classes status_tone
         status_message].
    split; [split; [intros _ | reflexivity]
           | split; [intros _; split; [apply Hshow | reflexivity]
                    | discriminate]].
    rewrite Hget in Hp.
    destruct (Server.getAccessToken e srv) as [[[t|] s'] sent0];
      [|discriminate Hp].
    cbn [fst]. split; [discriminate|].
    destruct (Server.spotifyFetch (Server.api_answer e)) as [value|status];
      [|discriminate Hp].
    injection Hp as <-. exists value. split; [reflexivity|].
    split; [|split; [|split]].
    + intros Hv. apply Hne. apply encode_null. left. exact Hv.
    + intros Hv. apply Hne. apply encode_null. right. left. exact Hv.
    + intros f Hv. destruct (Described.finite f) eqn:Hfin; [reflexivity|].
      exfalso. apply Hne. apply encode_null. right. right.
      exists f. split; [exact Hv | exact Hfin].
    + exact Hprint.
  - unfold not_connected, setStatus.
    cbn [app view authenticated app_classes login_classes status_tone
         status_message].
    split; [split; [discriminate|]
           | split; [discriminate
                    | intros _; split; [apply Hlogin | reflexivity]]].
    intros (Htok & value & Hf & Hn1 & Hn2 & Hn3 & Hn4). exfalso.
    rewrite Hget in Hfail.
    destruct (Server.getAccessToken e srv) as [[[t|] s'] sent0];
      [|apply Htok; reflexivity].
    rewrite Hf in Hfail.
    destruct Hfail as [Hnull | [(profile & Hp & Hprint) | (err & Herr)]].
    + injection Hnull as Hnull. apply encode_null in Hnull.
      destruct Hnull as [Hv | [Hv | (f & Hv & Hfin)]];
        [exact (Hn1 Hv) | exact (Hn2 Hv) |].
      rewrite (Hn3 f Hv) in Hfin. discriminate Hfin.
    + injection Hp as Hp. subst profile. cbn [Wire.encode] in Hn4.
      rewrite Hn4 in Hprint. discriminate Hprint.
    + discriminate Herr.
Qed.

(** A profile that is the number [1e999], which parses to [Infinity],
    reaches the page as [null]: the session is not connected.  A profile
    that is the number 7 is connected, as [undefined]. *)
Lemma checkSession_reflects_the_server_witness :
  authenticated
    (app (Wire.checkSession Wire.config
            (Server.mkEnv 1000 1000 "abc" Server.TokenUnreachable
               (Server.ApiResponse 200 "1e999" (Some (Json.JNum infinity))))
            Wire.logged_in Wire.ready Wire.blank)) = false
  /\ authenticated
       (app (Wire.checkSession Wire.config
               (Server.mkEnv 1000 1000 "abc" Server.TokenUnreachable
                  (Server.ApiResponse 200 "7" (Some (Json.JNum 7))))
               Wire.logged_in Wire.ready Wire.blank)) = true.
Proof.
  split.
  - destruct (authenticated
                (app (Wire.checkSession Wire.config
                        (Server.mkEnv 1000 1000 "abc" Server.TokenUnreachable
                           (Server.ApiResponse 200 "1e999"
                              (Some (Json.JNum infinity))))
                        Wire.logged_in Wire.ready Wire.blank))) eqn:Hauth;
      [|reflexivity].
    apply (proj1 (checkSession_reflects_the_server _ _ _ _ _)) in Hauth.
    destruct Hauth as (_ & value & Hf & _ & _ & Hfin & _).
    injection Hf as <-. discriminate (Hfin infinity eq_refl).
  - apply (proj1 (checkSession_reflects_the_server Wire.config
                    (Server.mkEnv 1000 1000 "abc" Server.TokenUnreachable
                       (Server.ApiResponse 200 "7" (Some (Json.JNum 7))))
                    Wire.logged_in Wire.ready Wire.blank)).
    split; [discriminate|].
    eexists. split; [reflexivity|].
    split; [discriminate|]. split; [discriminate|]. split.
    + intros f H. injection H as <-. reflexivity.
    + reflexivity.
Defined.

End EndToEnd.
